(** * ServeMe: a shallow embedding of [ServeMe.hpp]

    The header implements a small HTTP responder on top of boost::asio:
    a table of endpoints, a response cache, two response templates, a
    resolver that turns a configured response into a body, and a
    per-connection session made of two completion handlers.

    Conventions of the embedding.
    - [std::string] is [string] (a list of bytes), so [String.length] is
      the byte length that [std::string::length] returns.
    - [std::unordered_map] is stdpp's [gmap] with [string] keys.
    - The logger is an append-only list of (level, message) entries; time
      stamps and syslog are left out.
    - The file system is a function from file names to what happens when
      the file is opened and read: it cannot be opened, it is opened but
      reading it fails, or its contents are read.
    - A session is the pair of its completion handlers, run over an
      explicit state that holds the shared cache, the log, the operations
      issued on the session's socket and the asynchronous operations still
      outstanding.  The response of a session is the string handed to
      [do_write].
    - An exception is the result [None] of a computation; the only one in
      the model is the failure of a file read, which leaves the resolver
      and the read handler. *)

From Stdlib Require Import Ascii DecimalString DecimalNat.
From stdpp Require Import gmap strings list fin_maps.

(** ** Enumerations and type aliases of [namespace Utils] *)

Inductive Level := Debug | Info | Warning | Error | Critical.

Inductive Method := GET | POST.

Global Instance Method_eq_dec : EqDecision Method.
Proof. solve_decision. Defined.

Global Instance Level_eq_dec : EqDecision Level.
Proof. solve_decision. Defined.

Definition CR : ascii := "013"%char.
Definition LF : ascii := "010"%char.
Definition CRLF : string := String CR (String LF "").

Definition filePrefix : string := "@file:".

(** [typedef std::unordered_map<std::string, std::string> CACHE] and
    [typedef std::unordered_map<std::string, std::pair<std::string, Method>> endpoints]. *)
Abbreviation CACHE := (gmap string string).
Abbreviation endpoints := (gmap string (string * Method)).

Definition getPrefix (level : Level) : string :=
  match level with
  | Debug => "[DEBUG]"
  | Info => "[INFO]"
  | Warning => "[WARNING]"
  | Error => "[ERROR]"
  | Critical => "[CRITICAL]"
  end.

(** ** [std::to_string] on [size_t] and [std::string::substr] *)

(** Decimal rendering without sign or leading zeros; ["0"] for zero. *)
Definition to_string (n : nat) : string :=
  NilZero.string_of_uint (Nat.to_uint n).

(** Reading a decimal numeral back, used to state what a Content-Length
    header says. *)
Definition of_string (s : string) : option nat :=
  Nat.of_uint <$> NilZero.uint_of_string s.

Fixpoint drop_chars (pos : nat) (s : string) : string :=
  match pos, s with
  | 0, _ => s
  | S p, String _ s' => drop_chars p s'
  | S _, EmptyString => EmptyString
  end.

Fixpoint take_chars (n : nat) (s : string) : string :=
  match n, s with
  | S m, String c s' => String c (take_chars m s')
  | _, _ => EmptyString
  end.

(** [s.substr(pos, count)]: [None] stands for [std::out_of_range], thrown
    when [pos > s.size()]; [count = None] is the default [npos]. *)
Definition substr (s : string) (pos : nat) (count : option nat) : option string :=
  if decide (pos ≤ String.length s) then
    Some (match count with
          | Some n => take_chars n (drop_chars pos s)
          | None => drop_chars pos s
          end)
  else None.

(** ** [namespace Templates::Responses] *)

Module Responses.

Definition OK_default_body : string := "Hello, World!".
Definition OK_default_content_type : string := "text/html".
Definition NOT_OK_default_body : string := "404 Not Found!".

Definition OK (body content_type : string) : string :=
  "HTTP/1.1 200 OK" +:+ CRLF +:+ "Content-Length: " +:+ to_string (String.length body)
    +:+ CRLF +:+ "Content-Type: " +:+ content_type +:+ CRLF +:+ CRLF +:+ body.

Definition NOT_OK (body : string) : string :=
  "HTTP/1.1 404 Not Found" +:+ CRLF +:+ "Content-Length: 14" +:+ CRLF +:+ CRLF +:+ body.

End Responses.

(** ** State threaded through the session code *)

(** Asynchronous operations a session starts on its socket, and the
    record of everything it does to the socket. *)
Inductive AsyncOp :=
  | AsyncReadUntil (delim : string)
  | AsyncWrite (data : string).

Inductive SocketOp :=
  | Issued (op : AsyncOp)
  | ShutdownBoth.

(** [boost::system::error_code]: success, or a failure with its message. *)
Inductive error_code :=
  | Success
  | Failure (message : string).

(** What [std::ifstream file(filename)] followed by reading the stream
    buffer to its end comes to: the file cannot be opened; it is opened
    but the read fails, in which case the stream buffer throws (as it
    does for a directory with libstdc++, [std::ios_base::failure]); or
    the contents are read. *)
Inductive FileResult :=
  | CannotOpen
  | ReadThrows
  | Contents (content : string).

Definition FileSystem := string → FileResult.

Record State := mkState {
  cache : CACHE;                     (* the shared [CACHE&] *)
  logFile : list (Level * string);   (* what [Logger::log] has written, oldest first *)
  socket_ : list SocketOp;           (* operations on the session's socket, oldest first *)
  pending : list AsyncOp;            (* operations whose handler has not run yet *)
}.

(** A computation reads and updates the state; [None] is a thrown
    exception, the state being the one reached when it was thrown. *)
Definition M (A : Type) : Type := State → option A * State.

Global Instance M_ret : MRet M := λ A a s, (Some a, s).

Definition throw {A} : M A := λ s, (None, s).

Global Instance M_bind : MBind M := λ A B k m s,
  match m s with
  | (Some a, s') => k a s'
  | (None, s') => (None, s')
  end.

(** [Logger::log]: one more line in the log. *)
Definition log (level : Level) (message : string) : M unit :=
  λ s, (Some tt, mkState (cache s) (logFile s ++ [(level, message)]) (socket_ s) (pending s)).

(** [cache.find(key) != cache.end()]. *)
Definition cache_contains (key : string) : M bool :=
  λ s, (Some (bool_decide (is_Some (cache s !! key))), s).

(** [cache[key]]: the stored value; a missing key is first given the empty string. *)
Definition cache_index (key : string) : M string :=
  λ s, match cache s !! key with
       | Some v => (Some v, s)
       | None => (Some "", mkState (<[key := ""]> (cache s)) (logFile s) (socket_ s) (pending s))
       end.

(** [cache.insert(std::make_pair(key, value))]: a key already present keeps its value. *)
Definition cache_insert (key value : string) : M unit :=
  λ s, match cache s !! key with
       | Some _ => (Some tt, s)
       | None => (Some tt, mkState (<[key := value]> (cache s)) (logFile s) (socket_ s) (pending s))
       end.

(** Starting an asynchronous operation records it on the socket and leaves
    it outstanding until its handler runs. *)
Definition issue (op : AsyncOp) : M unit :=
  λ s, (Some tt, mkState (cache s) (logFile s) (socket_ s ++ [Issued op]) (pending s ++ [op])).

(** [socket_.shutdown(shutdown_both, ignored_ec)]. *)
Definition shutdown_both : M unit :=
  λ s, (Some tt, mkState (cache s) (logFile s) (socket_ s ++ [ShutdownBoth]) (pending s)).

(** Lifting of a call that may throw. *)
Definition lift {A} (o : option A) : M A :=
  match o with
  | Some a => mret a
  | None => throw
  end.

(** ** The response resolver *)

Definition readFileIntoString (files : FileSystem) (filename : string) : M string :=
  match files filename with
  | CannotOpen => log Error ("Can not open file " +:+ filename);; mret ""
  | ReadThrows => throw
  | Contents content => mret content
  end.

Definition getBody (files : FileSystem) (str : string) : M string :=
  head ← lift (substr str 0 (Some (String.length filePrefix)));
  if decide (head = filePrefix) then
    name ← lift (substr str (String.length filePrefix) None);
    ans ← readFileIntoString files name;
    mret ans
  else mret str.

(** ** Reading the request line *)

(** [std::getline]: the characters before the first line feed, or all of
    them when there is none. *)
Fixpoint getline (s : string) : string :=
  match s with
  | EmptyString => EmptyString
  | String c s' => if decide (c = LF) then EmptyString else String c (getline s')
  end.

Fixpoint skip_spaces (s : string) : string :=
  match s with
  | EmptyString => EmptyString
  | String c s' => if Ascii.is_space c then skip_spaces s' else s
  end.

Fixpoint take_word (s : string) : string * string :=
  match s with
  | EmptyString => (EmptyString, EmptyString)
  | String c s' =>
      if Ascii.is_space c then (EmptyString, s)
      else let '(w, rest) := take_word s' in (String c w, rest)
  end.

(** [iss >> word]: leading white space is skipped and the characters up to
    the next white space are taken; at the end of the input the word is
    empty and stays empty for every later extraction.  White space is
    what [isspace] accepts in the C locale: the characters 9 to 13 and
    the blank. *)
Definition extract (s : string) : string * string := take_word (skip_spaces s).

(** [iss >> method >> path >> version]. *)
Definition parse_request_line (request_line : string) : string * string * string :=
  let '(method, r1) := extract request_line in
  let '(path, r2) := extract r1 in
  let '(version, _) := extract r2 in
  (method, path, version).

(** The method a request token stands for in the comparison with the
    registered method: [method == "GET" ? Method::GET : Method::POST]. *)
Definition method_of (method : string) : Method :=
  if decide (method = "GET") then GET else POST.

(** ** [class HttpSession] *)

Definition set_pending (ps : list AsyncOp) (s : State) : State :=
  mkState (cache s) (logFile s) (socket_ s) ps.

(** A session as the server creates it: the shared cache and log, a socket
    on which nothing has happened yet. *)
Definition new_session (c : CACHE) (l : list (Level * string)) : State :=
  mkState c l [] [].

Section HttpSession.

(** The members a session is constructed with, and the files as they are
    when its read handler runs. *)
Variable endpoints_ : endpoints.
Variable enable_cache : bool.
Variable files : FileSystem.

Definition do_write (response : string) : M unit :=
  issue (AsyncWrite response).

Definition do_read : M unit :=
  issue (AsyncReadUntil (CRLF +:+ CRLF)).

Definition start : M unit := do_read.

(** The branch taken when no endpoint matches. *)
Definition not_found (method path : string) : M unit :=
  do_write (Responses.NOT_OK Responses.NOT_OK_default_body);;
  log Error ("No endpoint with name " +:+ path +:+ " and method " +:+ method).

(** The branch taken for a matching endpoint [it = (response, method)]. *)
Definition found (method path : string) (it : string * Method) : M unit :=
  hit ← (if enable_cache then cache_contains method else mret false);
  if (hit : bool) then
    response ← cache_index method;
    do_write response;;
    log Info ("Endpoint " +:+ path +:+ " of type " +:+ method +:+ " responsing...")
  else
    body ← getBody files it.1;
    let response := Responses.OK body Responses.OK_default_content_type in
    do_write response;;
    log Info ("Endpoint " +:+ path +:+ " of type " +:+ method +:+ " responsing...");;
    if enable_cache then cache_insert method response else mret tt.

(** Routing of a parsed request line. *)
Definition route (method path : string) : M unit :=
  match endpoints_ !! path with
  | Some it =>
      if decide (method_of method = it.2) then found method path it
      else not_found method path
  | None => not_found method path
  end.

(** The completion handler of [async_read_until]; [request_] is what the
    stream buffer holds when it runs. *)
Definition on_read (ec : error_code) (request_ : string) : M unit :=
  match ec with
  | Success =>
      let request_line := getline request_ in
      let '(method, path, version) := parse_request_line request_line in
      route method path
  | Failure message =>
      log Error ("Internal error in do_read() function: " +:+ message)
  end.

(** The completion handler of [async_write]. *)
Definition on_write (ec : error_code) : M unit :=
  match ec with
  | Success => shutdown_both
  | Failure message =>
      log Error ("Internal boost error of code " +:+ message +:+ "; Stopping the server.")
  end.

(** Completions the reactor can deliver to a session. *)
Inductive Completion :=
  | ReadCompleted (ec : error_code) (request_ : string)
  | WriteCompleted (ec : error_code).

(** One reactor step: an outstanding operation completes, it is no longer
    outstanding, and its handler runs, to its end or to the exception it
    throws ([r] is [None] then), which leaves the session as it was at
    the throw. *)
Inductive step : State → Completion → State → Prop :=
  | step_read s ps1 delim ps2 ec request_ r s' :
      pending s = ps1 ++ AsyncReadUntil delim :: ps2 →
      on_read ec request_ (set_pending (ps1 ++ ps2) s) = (r, s') →
      step s (ReadCompleted ec request_) s'
  | step_write s ps1 data ps2 ec r s' :
      pending s = ps1 ++ AsyncWrite data :: ps2 →
      on_write ec (set_pending (ps1 ++ ps2) s) = (r, s') →
      step s (WriteCompleted ec) s'.

Inductive steps : State → list Completion → State → Prop :=
  | steps_nil s : steps s [] s
  | steps_cons s c s' cs s'' : step s c s' → steps s' cs s'' → steps s (c :: cs) s''.

(** The life of a session: [start] on a fresh socket, then completions. *)
Definition session_run (c : CACHE) (l : list (Level * string))
    (cs : list Completion) (s : State) : Prop :=
  ∃ s0, start (new_session c l) = (Some tt, s0) ∧ steps s0 cs s.

End HttpSession.

(** The responses a session has handed to [do_write], oldest first, and
    the number of reads it has started. *)
Definition written (o : SocketOp) : option string :=
  match o with
  | Issued (AsyncWrite data) => Some data
  | _ => None
  end.

Definition responses (s : State) : list string := omap written (socket_ s).

Definition is_read (o : SocketOp) : bool :=
  match o with
  | Issued (AsyncReadUntil _) => true
  | _ => false
  end.

Definition reads_issued (s : State) : nat := length (List.filter is_read (socket_ s)).

(** ** [class HttpServer] and [class RESTAPIAPP] *)

(** [HttpServer::addEndpoint]: [endpoints_[path] = std::make_pair(response, method)]. *)
Definition addEndpoint (path response : string) (method : Method) (eps : endpoints) : endpoints :=
  <[path := (response, method)]> eps.

(** [RESTAPIAPP::AddEndpoint], which takes the method as a string and
    reads it with the same conditional as the session does. *)
Definition AddEndpoint (path response method : string) (eps : endpoints) : endpoints :=
  addEndpoint path response (method_of method) eps.

(** What the sessions of one server share, together with the files on disk. *)
Record World := mkWorld {
  w_endpoints : endpoints;
  w_files : FileSystem;
  w_cache : CACHE;
  w_log : list (Level * string);
}.

(** What happens to a running server: a connection is accepted and its
    read completes, an endpoint is registered, the files change. *)
Inductive Event :=
  | Request (ec : error_code) (request_ : string)
  | Register (path response method : string)
  | Files (files : FileSystem).

Section HttpServer.

(** [const bool enable_cache], fixed when the server is constructed;
    [RESTAPIAPP] constructs its server with the default, [true]. *)
Variable enable_cache : bool.

(** The session the server creates for an accepted connection, taken up
    to the end of its read handler, or to the exception that handler
    throws: the cache and the log are then as the handler left them, and
    the events that follow are those of a reactor that is run again. *)
Definition serve (w : World) (ec : error_code) (request_ : string) : State :=
  let s0 := (start (new_session (w_cache w) (w_log w))).2 in
  (on_read (w_endpoints w) enable_cache (w_files w) ec request_ (set_pending [] s0)).2.

Definition handle (w : World) (e : Event) : World :=
  match e with
  | Request ec request_ =>
      let s := serve w ec request_ in
      mkWorld (w_endpoints w) (w_files w) (cache s) (logFile s)
  | Register path response method =>
      mkWorld (AddEndpoint path response method (w_endpoints w)) (w_files w) (w_cache w) (w_log w)
  | Files files =>
      mkWorld (w_endpoints w) files (w_cache w) (w_log w)
  end.

Definition run (w : World) (es : list Event) : World := foldl handle w es.

End HttpServer.

(** The method tokens of the requests among some events. *)
Definition method_token (request_ : string) : string :=
  (parse_request_line (getline request_)).1.1.

Definition path_token (request_ : string) : string :=
  (parse_request_line (getline request_)).1.2.

Fixpoint request_methods (es : list Event) : gset string :=
  match es with
  | [] => ∅
  | Request Success request_ :: es' => {[ method_token request_ ]} ∪ request_methods es'
  | _ :: es' => request_methods es'
  end.

(** State updates, named so that the handlers' effects can be written down. *)
Definition logged (l : list (Level * string)) (s : State) : State :=
  mkState (cache s) (logFile s ++ l) (socket_ s) (pending s).

Definition issued (op : AsyncOp) (s : State) : State :=
  mkState (cache s) (logFile s) (socket_ s ++ [Issued op]) (pending s ++ [op]).

Definition cached (key value : string) (s : State) : State :=
  mkState (<[key := value]> (cache s)) (logFile s) (socket_ s) (pending s).

Definition set_cache (c : CACHE) (s : State) : State :=
  mkState c (logFile s) (socket_ s) (pending s).

(** The log lines of the read handler. *)
Definition responsing (method path : string) : Level * string :=
  (Info, "Endpoint " +:+ path +:+ " of type " +:+ method +:+ " responsing...").

Definition no_endpoint (method path : string) : Level * string :=
  (Error, "No endpoint with name " +:+ path +:+ " and method " +:+ method).

(** The request finds no endpoint: the path is unknown, or it is
    registered with the other method. *)
Definition unmatched (eps : endpoints) (method path : string) : Prop :=
  eps !! path = None ∨ ∃ src m, eps !! path = Some (src, m) ∧ method_of method ≠ m.

(** The response source names a file that is opened and then cannot be
    read. *)
Definition unreadable (files : FileSystem) (str : string) : Prop :=
  ∃ name, str = filePrefix +:+ name ∧ files name = ReadThrows.

(** A word of a request line: no white space in it. *)
Fixpoint no_space (s : string) : bool :=
  match s with
  | EmptyString => true
  | String c s' => negb (Ascii.is_space c) && no_space s'
  end.

(** Sample data: the endpoints of the usage example that closes the
    header, a request with a given method and path, a disk without files
    and one with a single file. *)
Definition example_endpoints : endpoints :=
  AddEndpoint "/submit" "Submitted!" "POST"
    (AddEndpoint "/data_from_file" "@file:index.html" "GET"
       (AddEndpoint "/data" "Some data!" "GET" ∅)).

Definition request (method path : string) : string :=
  method +:+ " " +:+ path +:+ " HTTP/1.1" +:+ CRLF +:+ "Host: localhost" +:+ CRLF +:+ CRLF.

Definition no_files : FileSystem := λ _, CannotOpen.

Definition one_file (name content : string) : FileSystem :=
  λ f, if decide (f = name) then Contents content else CannotOpen.

Definition one_directory (name : string) : FileSystem :=
  λ f, if decide (f = name) then ReadThrows else CannotOpen.

Definition example_world : World := mkWorld example_endpoints no_files ∅ [].

(** ** The rest of the header *)

(** Strings made of white space only, and strings without a line feed. *)
Fixpoint all_space (s : string) : bool :=
  match s with
  | EmptyString => true
  | String c s' => Ascii.is_space c && all_space s'
  end.

Fixpoint no_line_feed (s : string) : bool :=
  match s with
  | EmptyString => true
  | String c s' => negb (bool_decide (c = LF)) && no_line_feed s'
  end.

(** Decimal digits, for what [std::to_string] writes. *)
Definition is_digit (c : ascii) : bool := bool_decide (is_Some (Ascii.is_nat c)).

Fixpoint all_digits (s : string) : bool :=
  match s with
  | EmptyString => true
  | String c s' => is_digit c && all_digits s'
  end.

(** [Logger::writeToFile]: [logFile << buffer << " " << prefix << " " << message << std::endl],
    the log file being the list of what each call wrote before its
    [std::endl] and [buffer] the time stamp that [strftime] wrote. *)
Definition writeToFile (buffer : string) (level : Level) (message : string)
    (lines : list string) : list string :=
  lines ++ [buffer +:+ " " +:+ getPrefix level +:+ " " +:+ message].

(** The accept loop of [HttpServer]: the accepts outstanding, the
    sessions started so far (each in the state [start] leaves it in) and
    the log. *)
Record Acceptor := mkAcceptor {
  accepting : nat;
  sessions : list State;
  acceptor_log : list (Level * string);
}.

(** [HttpServer::do_accept]: one more [async_accept] is outstanding. *)
Definition do_accept (a : Acceptor) : Acceptor :=
  mkAcceptor (S (accepting a)) (sessions a) (acceptor_log a).

(** The completion handler of [async_accept]: a session is made and
    started, or the error is logged; then the loop is armed again. *)
Definition on_accept (c : CACHE) (ec : error_code) (a : Acceptor) : Acceptor :=
  do_accept
    match ec with
    | Success =>
        mkAcceptor (accepting a)
          (sessions a ++ [(start (new_session c (acceptor_log a))).2])
          (acceptor_log a)
    | Failure message =>
        mkAcceptor (accepting a) (sessions a)
          (acceptor_log a
             ++ [(Error, "Internal error in do_accept() function: " +:+ message)])
    end.

(** An outstanding accept completes: it is outstanding no more and its
    handler runs; without an outstanding accept nothing can complete. *)
Definition accept_completes (c : CACHE) (a : Acceptor) (ec : error_code) : option Acceptor :=
  match accepting a with
  | 0 => None
  | S n => Some (on_accept c ec (mkAcceptor n (sessions a) (acceptor_log a)))
  end.

(** The constructor of [HttpServer] arms the loop once. *)
Definition HttpServer_constructed : Acceptor := do_accept (mkAcceptor 0 [] []).

Fixpoint accept_run (c : CACHE) (a : Acceptor) (ecs : list error_code) : option Acceptor :=
  match ecs with
  | [] => Some a
  | ec :: ecs' =>
      match accept_completes c a ec with
      | Some a' => accept_run c a' ecs'
      | None => None
      end
  end.

Definition accepted (ec : error_code) : bool :=
  match ec with
  | Success => true
  | Failure _ => false
  end.

Definition accept_error (ec : error_code) : option (Level * string) :=
  match ec with
  | Success => None
  | Failure message => Some (Error, "Internal error in do_accept() function: " +:+ message)
  end.

(** * Properties *)

(** ** Strings *)

Lemma take_chars_prefix (p s : string) :
  take_chars (String.length p) s = p ↔ ∃ r, s = p +:+ r.
Proof.
  revert s. induction p as [|c p IH]; intros s; simpl.
  - split; [intros _; by exists s | by destruct s].
  - destruct s as [|c' s]; simpl.
    + split; [done | by intros [r ?]].
    + split.
      * intros [= -> H]. apply IH in H as [r ->]. by exists r.
      * intros [r [= -> ->]]. f_equal. apply IH. by exists r.
Qed.

Lemma drop_chars_app (p r : string) : drop_chars (String.length p) (p +:+ r) = r.
Proof. induction p as [|c p IH]; simpl; [by destruct r | done]. Qed.

Lemma length_app (p r : string) :
  String.length (p +:+ r) = String.length p + String.length r.
Proof. induction p as [|c p IH]; simpl; [done | by rewrite IH]. Qed.

Lemma of_to_string (n : nat) : of_string (to_string n) = Some n.
Proof.
  unfold of_string, to_string.
  pose proof (DecimalNat.Unsigned.of_to n) as Hn.
  destruct (Nat.to_uint n) as [|d|d|d|d|d|d|d|d|d|d] eqn:E;
    [simpl in *; by subst | rewrite NilZero.usu by done; simpl; by rewrite Hn ..].
Qed.

(** ** The request line *)

Lemma app_cons (c : ascii) (s r : string) : String c s +:+ r = String c (s +:+ r).
Proof. reflexivity. Qed.

Lemma getline_word (w rest : string) :
  no_space w = true → getline (w +:+ rest) = w +:+ getline rest.
Proof.
  induction w as [|c w IH]; [done|]. intros [Hc Hw]%andb_prop.
  rewrite app_cons. simpl. rewrite decide_False; [by rewrite IH, app_cons|].
  intros ->. done.
Qed.

Lemma take_word_word (w : string) (c : ascii) (rest : string) :
  no_space w = true → Ascii.is_space c = true →
  take_word (w +:+ String c rest) = (w, String c rest).
Proof.
  intros Hw Hc. induction w as [|c' w IH].
  - change ("" +:+ String c rest) with (String c rest). simpl. by rewrite Hc.
  - apply andb_prop in Hw as [Hc' Hw]. rewrite app_cons. simpl.
    apply negb_true_iff in Hc'. by rewrite Hc', IH.
Qed.

Lemma extract_word (w : string) (c : ascii) (rest : string) :
  w ≠ "" → no_space w = true → Ascii.is_space c = true →
  extract (w +:+ String c rest) = (w, String c rest).
Proof.
  intros Hne Hw Hc. unfold extract.
  assert (skip_spaces (w +:+ String c rest) = w +:+ String c rest) as ->.
  { destruct w as [|c' w]; [done|]. apply andb_prop in Hw as [Hc' _].
    rewrite app_cons. simpl. apply negb_true_iff in Hc'. by rewrite Hc'. }
  by apply take_word_word.
Qed.

(** A request line made of a method, a path and a version is read back
    as these three words. *)
Lemma parse_request (method path : string) :
  method ≠ "" → no_space method = true → path ≠ "" → no_space path = true →
  parse_request_line (getline (request method path)) = (method, path, "HTTP/1.1").
Proof.
  intros Hm1 Hm2 Hp1 Hp2. unfold request.
  rewrite (getline_word method) by done.
  change (" " +:+ ?x) with (String " " x). cbn [getline].
  rewrite decide_False by done.
  rewrite (getline_word path) by done.
  set (tail := getline _). vm_compute in tail. subst tail.
  unfold parse_request_line.
  rewrite (extract_word method) by done.
  assert (∀ x, extract (String " " x) = extract x) as Hskip by done.
  rewrite Hskip, (extract_word path) by done.
  reflexivity.
Qed.

(** ** The resolver *)

Lemma logged_nil s : logged [] s = s.
Proof. destruct s; unfold logged; simpl; by rewrite app_nil_r. Qed.

Lemma substr_0 (str : string) (n : nat) : substr str 0 (Some n) = Some (take_chars n str).
Proof. unfold substr. rewrite decide_True by lia. by destruct str. Qed.

Lemma substr_app (p r : string) : substr (p +:+ r) (String.length p) None = Some r.
Proof.
  unfold substr. rewrite decide_True by (rewrite length_app; lia).
  by rewrite drop_chars_app.
Qed.

Lemma getBody_literal files str s :
  (∀ name, str ≠ filePrefix +:+ name) → getBody files str s = (Some str, s).
Proof.
  intros Hno. unfold getBody. rewrite substr_0.
  unfold mbind, M_bind, lift, mret, M_ret.
  destruct (decide (take_chars (String.length filePrefix) str = filePrefix)) as [E|E]; [|done].
  apply take_chars_prefix in E as [r ->]. by destruct (Hno r).
Qed.

Lemma getBody_prefixed files name s :
  getBody files (filePrefix +:+ name) s = readFileIntoString files name s.
Proof.
  unfold getBody. rewrite substr_0, substr_app.
  assert (take_chars (String.length filePrefix) (filePrefix +:+ name) = filePrefix) as E.
  { apply take_chars_prefix. by exists name. }
  unfold mbind, M_bind, lift, mret, M_ret.
  rewrite decide_True by done.
  by destruct (readFileIntoString files name s) as [[?|] ?].
Qed.

Lemma getBody_file files name content s :
  files name = Contents content → getBody files (filePrefix +:+ name) s = (Some content, s).
Proof. intros H. rewrite getBody_prefixed. unfold readFileIntoString. by rewrite H. Qed.

Lemma getBody_missing files name s :
  files name = CannotOpen →
  getBody files (filePrefix +:+ name) s
  = (Some "", logged [(Error, "Can not open file " +:+ name)] s).
Proof. intros H. rewrite getBody_prefixed. unfold readFileIntoString. by rewrite H. Qed.

Lemma getBody_read_throws files name s :
  files name = ReadThrows → getBody files (filePrefix +:+ name) s = (None, s).
Proof. intros H. rewrite getBody_prefixed. unfold readFileIntoString. by rewrite H. Qed.

Lemma prefixed_dec (str : string) :
  {name | str = filePrefix +:+ name} + {∀ name, str ≠ filePrefix +:+ name}.
Proof.
  destruct (decide (take_chars (String.length filePrefix) str = filePrefix)) as [E|E].
  - left. exists (drop_chars (String.length filePrefix) str).
    apply take_chars_prefix in E as [r ->]. by rewrite drop_chars_app.
  - right. intros name ->. apply E, take_chars_prefix. by exists name.
Qed.

Lemma unreadable_prefixed files name :
  unreadable files (filePrefix +:+ name) ↔ files name = ReadThrows.
Proof.
  split; [|intros H; by exists name].
  intros (name' & E & H). by apply (inj (String.app filePrefix)) in E as ->.
Qed.

Lemma unreadable_dec files str : {unreadable files str} + {¬ unreadable files str}.
Proof.
  destruct (prefixed_dec str) as [[name ->]|Hno].
  - destruct (files name) eqn:E; [right|left|right];
      rewrite unreadable_prefixed; congruence.
  - right. intros (name & E & _). by destruct (Hno name).
Qed.

(** Unless the source names a file whose read fails, the resolver returns
    and touches nothing but the log; the body and the log lines do not
    depend on the state it runs in. *)
Lemma getBody_run files str :
  ¬ unreadable files str →
  ∃ body l, ∀ s, getBody files str s = (Some body, logged l s).
Proof.
  intros Hreadable. destruct (prefixed_dec str) as [[name ->]|Hno].
  - rewrite unreadable_prefixed in Hreadable.
    destruct (files name) as [| |content] eqn:E; [|done|].
    + eexists _, _. intros s. by apply getBody_missing.
    + exists content, []. intros s. rewrite logged_nil. by apply getBody_file.
  - exists str, []. intros s. rewrite logged_nil. by apply getBody_literal.
Qed.

(** When it does, the read throws out of the resolver, which has logged
    nothing. *)
Lemma getBody_unreadable files str s :
  unreadable files str → getBody files str s = (None, s).
Proof. intros (name & -> & H). by apply getBody_read_throws. Qed.

Lemma no_files_readable str : ¬ unreadable no_files str.
Proof. by intros (name & _ & H). Qed.

Lemma one_file_readable name content str : ¬ unreadable (one_file name content) str.
Proof. intros (name' & _ & H). unfold one_file in H. by destruct (decide (name' = name)). Qed.

Lemma Contents_readable files name content :
  files name = Contents content → ¬ unreadable files (filePrefix +:+ name).
Proof. intros H. rewrite unreadable_prefixed. congruence. Qed.

Lemma CannotOpen_readable files name :
  files name = CannotOpen → ¬ unreadable files (filePrefix +:+ name).
Proof. intros H. rewrite unreadable_prefixed. congruence. Qed.

(** ** The branches of the read handler *)

Lemma not_found_run method path s :
  not_found method path s
  = (Some tt, logged [no_endpoint method path]
                (issued (AsyncWrite (Responses.NOT_OK Responses.NOT_OK_default_body)) s)).
Proof. reflexivity. Qed.

Lemma found_hit files method path it s response :
  cache s !! method = Some response →
  found true files method path it s
  = (Some tt, logged [responsing method path] (issued (AsyncWrite response) s)).
Proof.
  intros H. unfold found, mbind, M_bind, cache_contains, cache_index.
  rewrite H, bool_decide_true by eauto. cbn. by rewrite H.
Qed.

Lemma found_miss enable_cache files method path it s body l :
  enable_cache = false ∨ cache s !! method = None →
  getBody files it.1 s = (Some body, logged l s) →
  let response := Responses.OK body Responses.OK_default_content_type in
  found enable_cache files method path it s
  = (Some tt, (if enable_cache then cached method response else id)
                (logged [responsing method path] (issued (AsyncWrite response) (logged l s)))).
Proof.
  intros Hmiss Hbody response. unfold found, mbind, M_bind.
  assert ((if enable_cache then cache_contains method else mret false) s = (Some false, s)) as ->.
  { destruct enable_cache; [|done]. destruct Hmiss as [|Hnone]; [done|].
    unfold cache_contains. rewrite Hnone. by rewrite bool_decide_false by by intros [? ?]. }
  rewrite Hbody. destruct enable_cache; [|done].
  destruct Hmiss as [|Hnone]; [done|].
  unfold do_write, issue, log, cache_insert. simpl. by rewrite Hnone.
Qed.

Lemma found_throws enable_cache files method path it s :
  enable_cache = false ∨ cache s !! method = None →
  getBody files it.1 s = (None, s) →
  found enable_cache files method path it s = (None, s).
Proof.
  intros Hmiss Hbody. unfold found, mbind, M_bind.
  assert ((if enable_cache then cache_contains method else mret false) s = (Some false, s)) as ->.
  { destruct enable_cache; [|done]. destruct Hmiss as [|Hnone]; [done|].
    unfold cache_contains. rewrite Hnone. by rewrite bool_decide_false by by intros [? ?]. }
  by rewrite Hbody.
Qed.

Lemma route_unregistered eps enable_cache files method path s :
  eps !! path = None →
  route eps enable_cache files method path s = not_found method path s.
Proof. intros H. unfold route. by rewrite H. Qed.

Lemma route_mismatch eps enable_cache files method path src m s :
  eps !! path = Some (src, m) → method_of method ≠ m →
  route eps enable_cache files method path s = not_found method path s.
Proof. intros H Hne. unfold route. rewrite H. simpl. by rewrite decide_False. Qed.

Lemma route_match eps enable_cache files method path src s :
  eps !! path = Some (src, method_of method) →
  route eps enable_cache files method path s
  = found enable_cache files method path (src, method_of method) s.
Proof. intros H. unfold route. rewrite H. simpl. by rewrite decide_True. Qed.

Lemma on_read_route eps enable_cache files request_ method path version s :
  parse_request_line (getline request_) = (method, path, version) →
  on_read eps enable_cache files Success request_ s
  = route eps enable_cache files method path s.
Proof. intros H. unfold on_read. by rewrite H. Qed.

(** The ways in which the read handler ends for a request that was read
    without error: three in which it answers, and the one in which the
    resolver throws. *)
Lemma on_read_cases eps enable_cache files request_ method path version s :
  parse_request_line (getline request_) = (method, path, version) →
  let r := on_read eps enable_cache files Success request_ s in
  (unmatched eps method path ∧
   r = (Some tt, logged [no_endpoint method path]
                   (issued (AsyncWrite (Responses.NOT_OK Responses.NOT_OK_default_body)) s)))
  ∨ (∃ src response,
       eps !! path = Some (src, method_of method) ∧
       enable_cache = true ∧ cache s !! method = Some response ∧
       r = (Some tt, logged [responsing method path] (issued (AsyncWrite response) s)))
  ∨ (∃ src body l,
       eps !! path = Some (src, method_of method) ∧
       (enable_cache = false ∨ cache s !! method = None) ∧
       (∀ s', getBody files src s' = (Some body, logged l s')) ∧
       r = (Some tt,
            (if enable_cache
             then cached method (Responses.OK body Responses.OK_default_content_type)
             else id)
              (logged [responsing method path]
                 (issued (AsyncWrite (Responses.OK body Responses.OK_default_content_type))
                    (logged l s)))))
  ∨ (∃ src,
       eps !! path = Some (src, method_of method) ∧
       (enable_cache = false ∨ cache s !! method = None) ∧
       unreadable files src ∧
       r = (None, s)).
Proof.
  intros Hparse r. subst r. rewrite (on_read_route _ _ _ _ _ _ _ _ Hparse).
  destruct (eps !! path) as [[src m]|] eqn:Hep.
  - destruct (decide (method_of method = m)) as [<-|Hne].
    + rewrite (route_match _ _ _ _ _ src) by done.
      assert (enable_cache = true ∧ is_Some (cache s !! method)
              ∨ (enable_cache = false ∨ cache s !! method = None)) as [[-> [response Hc]]|Hmiss].
      { destruct enable_cache; [|by auto]. destruct (cache s !! method); eauto. }
      * right; left. exists src, response. by rewrite (found_hit _ _ _ _ _ response).
      * destruct (unreadable_dec files src) as [Hthrows|Hreadable].
        -- right; right; right. exists src.
           rewrite (found_throws _ _ _ _ (src, _)); [done..|].
           by apply getBody_unreadable.
        -- destruct (getBody_run files src Hreadable) as (body & l & Hbody).
           right; right; left. exists src, body, l.
           rewrite (found_miss enable_cache _ _ _ (src, _) _ body l); auto.
    + left. split; [right; eauto|]. by rewrite (route_mismatch _ _ _ _ _ src m).
  - left. split; [by left|]. by rewrite route_unregistered.
Qed.

(** ** One connection *)

Lemma serve_on_read enable_cache w ec request_ :
  serve enable_cache w ec request_
  = (on_read (w_endpoints w) enable_cache (w_files w) ec request_
       (mkState (w_cache w) (w_log w) [Issued (AsyncReadUntil (CRLF +:+ CRLF))] [])).2.
Proof. reflexivity. Qed.

Lemma serve_unmatched enable_cache w request_ method path version :
  parse_request_line (getline request_) = (method, path, version) →
  unmatched (w_endpoints w) method path →
  serve enable_cache w Success request_
  = mkState (w_cache w) (w_log w ++ [no_endpoint method path])
      [Issued (AsyncReadUntil (CRLF +:+ CRLF));
       Issued (AsyncWrite (Responses.NOT_OK Responses.NOT_OK_default_body))]
      [AsyncWrite (Responses.NOT_OK Responses.NOT_OK_default_body)].
Proof.
  intros Hparse Hun. rewrite serve_on_read.
  destruct (on_read_cases (w_endpoints w) enable_cache (w_files w) _ _ _ _
              (mkState (w_cache w) (w_log w) [Issued (AsyncReadUntil (CRLF +:+ CRLF))] [])
              Hparse)
    as [[_ ->]|[(src & response & Hep & _)|[(src & body & l & Hep & _)|(src & Hep & _)]]];
    [done|..];
    destruct Hun as [Hnone|(src' & m & Hsome & Hne)]; congruence.
Qed.

Lemma serve_hit w request_ method path version src response :
  parse_request_line (getline request_) = (method, path, version) →
  w_endpoints w !! path = Some (src, method_of method) →
  w_cache w !! method = Some response →
  serve true w Success request_
  = mkState (w_cache w) (w_log w ++ [responsing method path])
      [Issued (AsyncReadUntil (CRLF +:+ CRLF)); Issued (AsyncWrite response)]
      [AsyncWrite response].
Proof.
  intros Hparse Hep Hc. rewrite serve_on_read.
  destruct (on_read_cases (w_endpoints w) true (w_files w) _ _ _ _
              (mkState (w_cache w) (w_log w) [Issued (AsyncReadUntil (CRLF +:+ CRLF))] [])
              Hparse)
    as [[Hun _]|[(src' & response' & _ & _ & Hc' & ->)
                |[(src' & body & l & _ & Hmiss & _)|(src' & _ & Hmiss & _)]]];
    simpl in *.
  - destruct Hun as [Hnone|(src' & m & Hsome & Hne)]; congruence.
  - by assert (response' = response) as -> by congruence.
  - destruct Hmiss; congruence.
  - destruct Hmiss; congruence.
Qed.

Lemma serve_miss enable_cache w request_ method path version src :
  parse_request_line (getline request_) = (method, path, version) →
  w_endpoints w !! path = Some (src, method_of method) →
  enable_cache = false ∨ w_cache w !! method = None →
  ¬ unreadable (w_files w) src →
  ∃ body l,
    (∀ s, getBody (w_files w) src s = (Some body, logged l s)) ∧
    let response := Responses.OK body Responses.OK_default_content_type in
    serve enable_cache w Success request_
    = mkState (if enable_cache then <[method := response]> (w_cache w) else w_cache w)
        ((w_log w ++ l) ++ [responsing method path])
        [Issued (AsyncReadUntil (CRLF +:+ CRLF)); Issued (AsyncWrite response)]
        [AsyncWrite response].
Proof.
  intros Hparse Hep Hmiss Hreadable. rewrite serve_on_read.
  destruct (on_read_cases (w_endpoints w) enable_cache (w_files w) _ _ _ _
              (mkState (w_cache w) (w_log w) [Issued (AsyncReadUntil (CRLF +:+ CRLF))] [])
              Hparse)
    as [[Hun _]|[(src' & response' & _ & Hec & Hc' & _)
                |[(src' & body & l & Hep' & _ & Hb & ->)|(src' & Hep' & _ & Hthrows & _)]]];
    simpl in *.
  - destruct Hun as [Hnone|(src' & m & Hsome & Hne)]; congruence.
  - destruct Hmiss; congruence.
  - assert (src' = src) as -> by congruence.
    exists body, l. split; [done | by destruct enable_cache].
  - assert (src' = src) as -> by congruence. done.
Qed.

(** The resolver throws: the handler ends there, nothing written, logged
    or cached. *)
Lemma serve_throws enable_cache w request_ method path version src :
  parse_request_line (getline request_) = (method, path, version) →
  w_endpoints w !! path = Some (src, method_of method) →
  enable_cache = false ∨ w_cache w !! method = None →
  unreadable (w_files w) src →
  on_read (w_endpoints w) enable_cache (w_files w) Success request_
    (mkState (w_cache w) (w_log w) [Issued (AsyncReadUntil (CRLF +:+ CRLF))] [])
  = (None, mkState (w_cache w) (w_log w) [Issued (AsyncReadUntil (CRLF +:+ CRLF))] []).
Proof.
  intros Hparse Hep Hmiss Hthrows.
  destruct (on_read_cases (w_endpoints w) enable_cache (w_files w) _ _ _ _
              (mkState (w_cache w) (w_log w) [Issued (AsyncReadUntil (CRLF +:+ CRLF))] [])
              Hparse)
    as [[Hun _]|[(src' & response' & _ & Hec & Hc' & _)
                |[(src' & body & l & Hep' & _ & Hb & _)|(src' & _ & _ & _ & ->)]]];
    simpl in *; [| |exfalso|done].
  - destruct Hun as [Hnone|(src' & m & Hsome & Hne)]; congruence.
  - destruct Hmiss; congruence.
  - assert (src' = src) as -> by congruence.
    specialize (Hb (new_session ∅ [])).
    rewrite (getBody_unreadable _ _ _ Hthrows) in Hb. congruence.
Qed.

(** ** The not-found response *)

(** C4, as the code has it: a request whose path is not registered, or
    is registered with a method other than the one the request is read
    as (GET for the token [GET], POST for every other token), is
    answered with the fixed not-found response; the template writes the
    literal [Content-Length: 14] whatever body it is given. *)
Theorem not_found_fixed_response enable_cache w request_ method path version :
  parse_request_line (getline request_) = (method, path, version) →
  (w_endpoints w !! path = None
   ∨ ∃ src m, w_endpoints w !! path = Some (src, m) ∧ method_of method ≠ m) →
  responses (serve enable_cache w Success request_)
    = [Responses.NOT_OK Responses.NOT_OK_default_body]
  ∧ ∀ body,
      Responses.NOT_OK body
      = "HTTP/1.1 404 Not Found" +:+ CRLF +:+ "Content-Length: 14" +:+ CRLF +:+ CRLF +:+ body.
Proof.
  intros Hparse Hun. split; [|done].
  by rewrite (serve_unmatched _ _ _ _ _ _ Hparse Hun).
Qed.

Lemma not_found_fixed_response_witness :
  parse_request_line (getline (request "POST" "/data")) = ("POST", "/data", "HTTP/1.1")
  ∧ example_endpoints !! "/data" = Some ("Some data!", GET)
  ∧ responses (serve true example_world Success (request "POST" "/data"))
    = [Responses.NOT_OK Responses.NOT_OK_default_body].
Proof.
  split; [vm_compute; reflexivity|]. split; [vm_compute; reflexivity|].
  apply (not_found_fixed_response true example_world (request "POST" "/data")
           "POST" "/data" "HTTP/1.1").
  - vm_compute. reflexivity.
  - right. exists "Some data!", GET. split; [vm_compute; reflexivity | discriminate].
Defined.

(** C4 fails as stated: a PUT request for a path registered with POST
    carries a method that is not the registered one, and is answered 200
    with the endpoint's body, not with the not-found response. *)
Lemma put_on_post_endpoint_is_served :
  let request_ := request "PUT" "/submit" in
  parse_request_line (getline request_) = ("PUT", "/submit", "HTTP/1.1")
  ∧ example_endpoints !! "/submit" = Some ("Submitted!", POST)
  ∧ responses (serve false example_world Success request_)
    = [Responses.OK "Submitted!" "text/html"]
  ∧ responses (serve false example_world Success request_)
    ≠ [Responses.NOT_OK Responses.NOT_OK_default_body].
Proof. vm_compute. repeat split. discriminate. Qed.

(** C10: the default not-found body is 14 bytes long, and the not-found
    branch of the session writes the template with that body, so the
    literal 14 of the header is the length of the body sent. *)
Theorem default_not_found_length :
  String.length Responses.NOT_OK_default_body = 14
  ∧ (∀ method path s,
       responses (not_found method path s).2
       = responses s ++ [Responses.NOT_OK Responses.NOT_OK_default_body])
  ∧ Responses.NOT_OK Responses.NOT_OK_default_body
    = "HTTP/1.1 404 Not Found" +:+ CRLF +:+ "Content-Length: "
        +:+ to_string (String.length Responses.NOT_OK_default_body)
        +:+ CRLF +:+ CRLF +:+ Responses.NOT_OK_default_body.
Proof.
  split; [reflexivity|]. split; [|reflexivity].
  intros method path s. rewrite not_found_run. unfold responses. simpl.
  by rewrite omap_app.
Qed.

(** ** Matching requests *)



(** C6: a response source that begins with the file marker names a file
    that is read when the request is handled, its contents being the
    body; when the file cannot be opened an Error line is logged, the body
    is empty and the request is still answered 200 with that empty body;
    a source without the marker is the body as it stands. *)
Theorem getBody_resolves files :
  (∀ name content s,
     files name = Contents content →
     getBody files (filePrefix +:+ name) s = (Some content, s))
  ∧ (∀ name s,
       files name = CannotOpen →
       getBody files (filePrefix +:+ name) s
       = (Some "", logged [(Error, "Can not open file " +:+ name)] s))
  ∧ (∀ name enable_cache eps c l request_ method path version,
       files name = CannotOpen →
       parse_request_line (getline request_) = (method, path, version) →
       eps !! path = Some (filePrefix +:+ name, method_of method) →
       enable_cache = false ∨ c !! method = None →
       let s := serve enable_cache (mkWorld eps files c l) Success request_ in
       responses s
       = ["HTTP/1.1 200 OK" +:+ CRLF +:+ "Content-Length: 0" +:+ CRLF
            +:+ "Content-Type: text/html" +:+ CRLF +:+ CRLF]
       ∧ logFile s
         = l ++ [(Error, "Can not open file " +:+ name); responsing method path])
  ∧ (∀ str s,
       (∀ name, str ≠ filePrefix +:+ name) →
       getBody files str s = (Some str, s)).
Proof.
  split; [intros; by apply getBody_file|].
  split; [intros; by apply getBody_missing|].
  split; [|intros; by apply getBody_literal].
  intros name enable_cache eps c l request_ method path version Hnone Hparse Hep Hmiss s.
  subst s.
  destruct (serve_miss enable_cache (mkWorld eps files c l) _ _ _ _ _ Hparse Hep Hmiss
              (CannotOpen_readable _ _ Hnone))
    as (body & l' & Hbody & ->).
  simpl in Hbody. specialize (Hbody (new_session ∅ [])).
  rewrite (getBody_missing _ _ _ Hnone) in Hbody.
  assert (body = "" ∧ l' = [(Error, "Can not open file " +:+ name)]) as [-> ->].
  { unfold logged in Hbody. simpl in Hbody. by simplify_eq. }
  split; [reflexivity|]. simpl. by rewrite <- app_assoc.
Qed.

Lemma getBody_resolves_witness :
  getBody (one_file "index.html" "<h1>Hi</h1>") "@file:index.html" (new_session ∅ [])
    = (Some "<h1>Hi</h1>", new_session ∅ [])
  ∧ getBody no_files "@file:index.html" (new_session ∅ [])
    = (Some "", logged [(Error, "Can not open file index.html")] (new_session ∅ []))
  ∧ responses (serve true example_world Success (request "GET" "/data_from_file"))
    = ["HTTP/1.1 200 OK" +:+ CRLF +:+ "Content-Length: 0" +:+ CRLF
         +:+ "Content-Type: text/html" +:+ CRLF +:+ CRLF]
  ∧ getBody no_files "Some data!" (new_session ∅ []) = (Some "Some data!", new_session ∅ []).
Proof.
  split; [|split; [|split]].
  - apply (proj1 (getBody_resolves (one_file "index.html" "<h1>Hi</h1>")) "index.html").
    vm_compute. reflexivity.
  - apply (proj1 (proj2 (getBody_resolves no_files)) "index.html"). reflexivity.
  - apply (proj1 (proj2 (proj2 (getBody_resolves no_files))) "index.html" true
             example_endpoints ∅ [] (request "GET" "/data_from_file")
             "GET" "/data_from_file" "HTTP/1.1").
    + reflexivity.
    + vm_compute. reflexivity.
    + vm_compute. reflexivity.
    + right. reflexivity.
  - apply (proj2 (proj2 (proj2 (getBody_resolves no_files)))).
    intros name. discriminate.
Defined.

(** ** Methods other than GET and POST *)




(** ** The cache is touched only by a cached miss *)

(** C9: a request that matches no endpoint leaves the cache as it was;
    the cache changes only when caching is on, the request matches and
    its method token has no entry, and then by exactly that entry; with
    caching off the cache is neither written nor read: the handler does
    the same whatever the cache holds. *)
Theorem cache_frame eps enable_cache files request_ method path version s :
  parse_request_line (getline request_) = (method, path, version) →
  let s' := (on_read eps enable_cache files Success request_ s).2 in
  ((eps !! path = None ∨ ∃ src m, eps !! path = Some (src, m) ∧ method_of method ≠ m) →
   cache s' = cache s
   ∧ responses s' = responses s ++ [Responses.NOT_OK Responses.NOT_OK_default_body])
  ∧ (cache s' ≠ cache s →
     enable_cache = true ∧ cache s !! method = None
     ∧ ∃ src body,
         eps !! path = Some (src, method_of method)
         ∧ cache s' = <[method := Responses.OK body Responses.OK_default_content_type]> (cache s))
  ∧ (enable_cache = false →
     cache s' = cache s
     ∧ ∀ c, (on_read eps enable_cache files Success request_ (set_cache c s)).2
            = set_cache c s').
Proof.
  intros Hparse s'. subst s'.
  destruct (on_read_cases eps enable_cache files _ _ _ _ s Hparse)
    as [[Hun ->]|[(src & response & Hep & Hec & Hc & ->)
                 |[(src & body & l & Hep & Hmiss & Hbody & ->)
                  |(src & Hep & Hmiss & Hthrows & ->)]]]; cbn [snd].
  - split; [intros _; split; [done|]|split; [done|intros _; split; [done|]]].
    + unfold responses. simpl. by rewrite omap_app.
    + intros c.
      destruct (on_read_cases eps enable_cache files _ _ _ _ (set_cache c s) Hparse)
        as [[_ ->]|[(src & response & Hep & _)|[(src & body & l & Hep & _)|(src & Hep & _)]]];
        [done|..];
        destruct Hun as [Hnone|(src' & m & Hsome & Hne)]; congruence.
  - split; [|split; [done|intros ->; done]].
    intros [Hnone|(src' & m & Hsome & Hne)]; congruence.
  - split; [|split].
    + intros [Hnone|(src' & m & Hsome & Hne)]; congruence.
    + destruct enable_cache; [|done]. simpl. intros _.
      destruct Hmiss as [|Hnone]; [done|]. eauto 10.
    + intros ->. split; [done|]. intros c. cbn [id].
      destruct (on_read_cases eps false files _ _ _ _ (set_cache c s) Hparse)
        as [[Hun _]|[(src' & response & _ & Hec & _)
                    |[(src' & body' & l' & Hep' & _ & Hbody' & ->)
                     |(src' & Hep' & _ & Hthrows' & _)]]].
      * destruct Hun as [Hnone|(src' & m & Hsome & Hne)]; congruence.
      * done.
      * assert (src' = src) as -> by congruence.
        specialize (Hbody s). rewrite Hbody' in Hbody. by simplify_eq.
      * assert (src' = src) as -> by congruence.
        specialize (Hbody s). rewrite (getBody_unreadable _ _ _ Hthrows') in Hbody.
        congruence.
  - split; [|split; [done|]].
    + intros [Hnone|(src' & m & Hsome & Hne)]; congruence.
    + intros ->. split; [done|]. intros c.
      destruct (on_read_cases eps false files _ _ _ _ (set_cache c s) Hparse)
        as [[Hun _]|[(src' & response & _ & Hec & _)
                    |[(src' & body' & l' & Hep' & _ & Hbody' & _)
                     |(src' & _ & _ & _ & ->)]]].
      * destruct Hun as [Hnone|(src' & m & Hsome & Hne)]; congruence.
      * done.
      * assert (src' = src) as -> by congruence.
        specialize (Hbody' s). rewrite (getBody_unreadable _ _ _ Hthrows) in Hbody'.
        congruence.
      * done.
Qed.

Lemma cache_frame_witness :
  cache (on_read example_endpoints true no_files Success (request "GET" "/nowhere")
           (new_session ∅ [])).2 = ∅
  ∧ cache (on_read example_endpoints false no_files Success (request "GET" "/data")
             (new_session ∅ [])).2 = ∅.
Proof.
  split.
  - refine (proj1 (proj1 (cache_frame example_endpoints true no_files
                            (request "GET" "/nowhere") "GET" "/nowhere" "HTTP/1.1"
                            (new_session ∅ []) _) _)).
    + vm_compute. reflexivity.
    + left. vm_compute. reflexivity.
  - refine (proj1 (proj2 (proj2 (cache_frame example_endpoints false no_files
                                   (request "GET" "/data") "GET" "/data" "HTTP/1.1"
                                   (new_session ∅ []) _)) _)).
    + vm_compute. reflexivity.
    + reflexivity.
Defined.

(** ** Registration *)

(** Registering a path again replaces its response and its method: the
    table is the one the latest registration alone would give, for
    [HttpServer::addEndpoint] and for [RESTAPIAPP::AddEndpoint] alike. *)
Lemma addEndpoint_overwrites path response1 method1 response2 method2 eps :
  let eps2 := addEndpoint path response2 method2 (addEndpoint path response1 method1 eps) in
  eps2 !! path = Some (response2, method2)
  ∧ eps2 = addEndpoint path response2 method2 eps
  ∧ (∀ enable_cache w token1 token2 es,
       run enable_cache w (Register path response1 token1 :: Register path response2 token2 :: es)
       = run enable_cache w (Register path response2 token2 :: es)).
Proof.
  intros eps2. subst eps2. unfold addEndpoint.
  split; [apply lookup_insert_eq|].
  rewrite insert_insert_eq. split; [done|].
  intros enable_cache w token1 token2 es. simpl. unfold AddEndpoint, addEndpoint.
  by rewrite insert_insert_eq.
Qed.

(** C7, as the code has it: registering a path again replaces its
    response and its method (the last write wins, nothing is merged), and
    a later request for that path, made while the path's entry is the
    one this registration left, is routed by the latest registration
    alone.  It gets the not-found response when its method is not the
    latest one; when its response is rendered, caching being off or
    nothing being cached under its method token, the body is resolved
    from the latest response; but with caching on a response already
    cached under its method token is served instead, whatever it was
    rendered from. *)
Theorem reregistered_path_is_routed_by_latest enable_cache path response1 method1
    response2 method2 eps eps' files c l request_ method version :
  parse_request_line (getline request_) = (method, path, version) →
  let eps2 := addEndpoint path response2 method2 (addEndpoint path response1 method1 eps) in
  eps' !! path = eps2 !! path →
  let answer := responses (serve enable_cache (mkWorld eps' files c l) Success request_) in
  eps2 !! path = Some (response2, method2)
  ∧ eps2 = addEndpoint path response2 method2 eps
  ∧ (method_of method ≠ method2 →
     answer = [Responses.NOT_OK Responses.NOT_OK_default_body])
  ∧ (method_of method = method2 →
     enable_cache = false ∨ c !! method = None →
     ¬ unreadable files response2 →
     ∃ body2,
       (∀ s, (getBody files response2 s).1 = Some body2)
       ∧ answer = [Responses.OK body2 Responses.OK_default_content_type])
  ∧ (method_of method = method2 →
     enable_cache = true →
     ∀ cached, c !! method = Some cached → answer = [cached]).
Proof.
  intros Hparse eps2 Hsame answer.
  assert (eps2 !! path = Some (response2, method2)) as Hep2.
  { subst eps2. unfold addEndpoint. apply lookup_insert_eq. }
  assert (eps' !! path = Some (response2, method2)) as Hep by by rewrite Hsame.
  split; [done|]. split.
  { subst eps2. unfold addEndpoint. by rewrite insert_insert_eq. }
  subst answer. split; [|split].
  - intros Hne. rewrite (serve_unmatched _ _ _ _ _ _ Hparse); [done|].
    right. by exists response2, method2.
  - intros <- Hmiss Hreadable.
    destruct (serve_miss enable_cache (mkWorld eps' files c l) _ _ _ _ _ Hparse Hep Hmiss
                Hreadable) as (body2 & l' & Hbody & ->).
    exists body2. split; [|done]. intros s. by rewrite Hbody.
  - intros <- -> cached Hc.
    by rewrite (serve_hit (mkWorld eps' files c l) _ _ _ _ _ _ Hparse Hep Hc).
Qed.

Lemma reregistered_path_is_routed_by_latest_witness :
  let eps2 := addEndpoint "/p" "two" POST (addEndpoint "/p" "one" GET ∅) in
  let eps' := addEndpoint "/q" "other" GET eps2 in
  responses (serve false (mkWorld eps2 no_files ∅ []) Success (request "GET" "/p"))
    = [Responses.NOT_OK Responses.NOT_OK_default_body]
  ∧ (∃ body2,
       (∀ s, (getBody no_files "two" s).1 = Some body2)
       ∧ responses (serve false (mkWorld eps' no_files ∅ []) Success (request "POST" "/p"))
         = [Responses.OK body2 Responses.OK_default_content_type])
  ∧ responses (serve true (mkWorld eps2 no_files {["POST" := "kept"]} []) Success
                 (request "POST" "/p"))
    = ["kept"].
Proof.
  intros eps2 eps'. split; [|split].
  - refine (proj1 (proj2 (proj2 (reregistered_path_is_routed_by_latest false "/p" "one" GET
                                   "two" POST ∅ eps2 no_files ∅ [] (request "GET" "/p")
                                   "GET" "HTTP/1.1" _ _))) _).
    + vm_compute. reflexivity.
    + reflexivity.
    + discriminate.
  - refine (proj1 (proj2 (proj2 (proj2 (reregistered_path_is_routed_by_latest false "/p"
                                          "one" GET "two" POST ∅ eps' no_files ∅ []
                                          (request "POST" "/p") "POST" "HTTP/1.1" _ _))))
              _ _ _).
    + vm_compute. reflexivity.
    + vm_compute. reflexivity.
    + reflexivity.
    + left. reflexivity.
    + intros (name & _ & H). discriminate H.
  - refine (proj2 (proj2 (proj2 (proj2 (reregistered_path_is_routed_by_latest true "/p"
                                          "one" GET "two" POST ∅ eps2 no_files
                                          {["POST" := "kept"]} []
                                          (request "POST" "/p") "POST" "HTTP/1.1" _ _))))
              _ _ "kept" _).
    + vm_compute. reflexivity.
    + reflexivity.
    + reflexivity.
    + reflexivity.
    + vm_compute. reflexivity.
Defined.

(** C7 fails as stated: with caching on, an endpoint registered with the
    body [one] is requested and then registered again with the body
    [two]; the table holds the latest registration, and the next request
    for the path is still answered with [one], from the cache. *)
Lemma stale_response_after_reregistration :
  let w := run true (mkWorld ∅ no_files ∅ [])
             [Register "/p" "one" "GET";
              Request Success (request "GET" "/p");
              Register "/p" "two" "GET"] in
  w_endpoints w !! "/p" = Some ("two", GET)
  ∧ responses (serve true w Success (request "GET" "/p"))
    = [Responses.OK "one" "text/html"]
  ∧ responses (serve true w Success (request "GET" "/p"))
    ≠ [Responses.OK "two" "text/html"].
Proof. vm_compute. repeat split. discriminate. Qed.

(** ** The cache over the life of a server *)

Lemma parse_tokens request_ :
  ∃ version,
    parse_request_line (getline request_) = (method_token request_, path_token request_, version).
Proof.
  unfold method_token, path_token.
  destruct (parse_request_line (getline request_)) as [[method path] version]. by exists version.
Qed.

(** A connection leaves the cache as it is or adds one entry, under the
    method token of its request, which had none. *)
Lemma serve_cache enable_cache w ec request_ :
  cache (serve enable_cache w ec request_) = w_cache w
  ∨ (ec = Success ∧ enable_cache = true ∧ w_cache w !! method_token request_ = None
     ∧ ∃ response,
         cache (serve enable_cache w ec request_)
         = <[method_token request_ := response]> (w_cache w)).
Proof.
  destruct ec as [|message]; [|by left].
  destruct (parse_tokens request_) as [version Hparse].
  rewrite serve_on_read.
  destruct (on_read_cases (w_endpoints w) enable_cache (w_files w) _ _ _ _
              (mkState (w_cache w) (w_log w) [Issued (AsyncReadUntil (CRLF +:+ CRLF))] [])
              Hparse)
    as [[_ ->]|[(src & response & _ & _ & _ & ->)
               |[(src & body & l & _ & Hmiss & _ & ->)|(src & _ & _ & _ & ->)]]];
    [by left..| |by left].
  destruct enable_cache; [|by left].
  destruct Hmiss as [|Hnone]; [done|]. right. eauto.
Qed.

Lemma handle_cache enable_cache w e :
  w_cache (handle enable_cache w e) = w_cache w
  ∨ ∃ request_ response,
      e = Request Success request_ ∧ enable_cache = true
      ∧ w_cache w !! method_token request_ = None
      ∧ w_cache (handle enable_cache w e) = <[method_token request_ := response]> (w_cache w).
Proof.
  destruct e as [ec request_| |]; [|by left..].
  destruct (serve_cache enable_cache w ec request_)
    as [E|(-> & Hec & Hnone & response & E)]; [by left|right].
  exists request_, response. eauto.
Qed.

(** An entry, once in the cache, stays as it is. *)
Lemma handle_cache_keeps enable_cache w e key response :
  w_cache w !! key = Some response →
  w_cache (handle enable_cache w e) !! key = Some response.
Proof.
  intros H.
  destruct (handle_cache enable_cache w e) as [->|(request_ & r & _ & _ & Hnone & ->)]; [done|].
  rewrite lookup_insert_ne; [done|]. intros <-. congruence.
Qed.

Lemma run_cache_keeps enable_cache es w key response :
  w_cache w !! key = Some response →
  w_cache (run enable_cache w es) !! key = Some response.
Proof.
  revert w. induction es as [|e es IH]; intros w H; [done|].
  simpl. apply IH. by apply handle_cache_keeps.
Qed.

Lemma request_methods_cons e es :
  request_methods (e :: es) = request_methods [e] ∪ request_methods es.
Proof.
  destruct e as [[|message] request_| |]; simpl;
    by rewrite ?(right_id_L ∅ (∪)), ?(left_id_L ∅ (∪)).
Qed.

(** A connection adds no key but the method token of its request. *)
Lemma handle_cache_dom enable_cache w e :
  dom (w_cache (handle enable_cache w e)) ⊆ dom (w_cache w) ∪ request_methods [e].
Proof.
  destruct (handle_cache enable_cache w e) as [->|(request_ & r & -> & _ & _ & ->)].
  - apply union_subseteq_l.
  - rewrite dom_insert_L. simpl.
    by rewrite (right_id_L ∅ (∪)), (comm_L (∪)).
Qed.

Lemma run_cache_dom enable_cache es w :
  dom (w_cache (run enable_cache w es)) ⊆ dom (w_cache w) ∪ request_methods es.
Proof.
  revert w. induction es as [|e es IH]; intros w; [apply union_subseteq_l|].
  change (run enable_cache w (e :: es)) with (run enable_cache (handle enable_cache w e) es).
  etrans; [apply IH|].
  rewrite (request_methods_cons e es), (assoc_L (∪)).
  apply union_least.
  - etrans; [apply handle_cache_dom | apply union_subseteq_l].
  - apply union_subseteq_r.
Qed.

(** C1: with caching on, the cache is keyed by the method token alone.
    A first matching GET request, made when nothing is cached for GET,
    is answered with its own endpoint's rendered response, which is
    stored under [GET]; from then on, whatever happens to the server in
    between (other requests, registrations, changes to the files), every
    matching GET request, for whatever registered path, is answered with
    that stored response, its own endpoint's response source being left
    aside.  (The first request renders a response unless its endpoint's
    file is opened and cannot be read, in which case the resolver throws
    and nothing is cached.) *)
Theorem first_get_response_served_forever w request_a path_a version_a src_a :
  parse_request_line (getline request_a) = ("GET", path_a, version_a) →
  w_endpoints w !! path_a = Some (src_a, GET) →
  w_cache w !! "GET" = None →
  ¬ unreadable (w_files w) src_a →
  ∃ body_a,
    let first := Responses.OK body_a Responses.OK_default_content_type in
    let w1 := handle true w (Request Success request_a) in
    (∀ s, (getBody (w_files w) src_a s).1 = Some body_a)
    ∧ responses (serve true w Success request_a) = [first]
    ∧ w_cache w1 !! "GET" = Some first
    ∧ ∀ es request_b path_b version_b src_b,
        let w2 := run true w1 es in
        parse_request_line (getline request_b) = ("GET", path_b, version_b) →
        w_endpoints w2 !! path_b = Some (src_b, GET) →
        responses (serve true w2 Success request_b) = [first]
        ∧ w_cache (handle true w2 (Request Success request_b)) !! "GET" = Some first.
Proof.
  intros Hparse Hep Hnone Hreadable.
  destruct (serve_miss true w _ _ _ _ src_a Hparse Hep) as (body_a & l & Hbody & Hs);
    [by right|done|].
  exists body_a. cbn zeta in *.
  assert (w_cache (handle true w (Request Success request_a)) !! "GET"
          = Some (Responses.OK body_a Responses.OK_default_content_type)) as Hfirst.
  { cbn [handle w_cache]. rewrite Hs. cbn [cache]. apply lookup_insert_eq. }
  split; [intros s; by rewrite Hbody|]. split; [by rewrite Hs|]. split; [done|].
  intros es request_b path_b version_b src_b Hparse_b Hep_b.
  pose proof (run_cache_keeps true es _ _ _ Hfirst) as Hkept.
  split; [by rewrite (serve_hit _ _ _ _ _ _ _ Hparse_b Hep_b Hkept)|].
  by apply handle_cache_keeps.
Qed.

Lemma first_get_response_served_forever_witness :
  let w := run true (mkWorld ∅ no_files ∅ [])
             [Register "/a" "A" "GET"; Register "/b" "B" "GET"] in
  let w1 := handle true w (Request Success (request "GET" "/a")) in
  responses (serve true w Success (request "GET" "/a")) = [Responses.OK "A" "text/html"]
  ∧ responses (serve true w1 Success (request "GET" "/b")) = [Responses.OK "A" "text/html"].
Proof.
  intros w w1.
  destruct (first_get_response_served_forever w (request "GET" "/a") "/a" "HTTP/1.1" "A")
    as (body_a & Hbody & Hfirst & _ & Hlater).
  - vm_compute. reflexivity.
  - vm_compute. reflexivity.
  - vm_compute. reflexivity.
  - intros (name & _ & H). discriminate H.
  - assert (body_a = "A") as ->.
    { specialize (Hbody (new_session ∅ [])). vm_compute in Hbody. congruence. }
    split; [exact Hfirst|].
    refine (proj1 (Hlater [] (request "GET" "/b") "/b" "HTTP/1.1" "B" _ _)).
    + vm_compute. reflexivity.
    + vm_compute. reflexivity.
Defined.

(** C3 fails as stated: a GET request, a POST request and a DELETE
    request, the last two for a path registered with POST, leave three
    entries in a cache that started empty. *)
Lemma three_cache_entries :
  let w := run true example_world
             [Request Success (request "GET" "/data");
              Request Success (request "POST" "/submit");
              Request Success (request "DELETE" "/submit")] in
  w_cache example_world = ∅
  ∧ w_cache w !! "GET" = Some (Responses.OK "Some data!" "text/html")
  ∧ w_cache w !! "POST" = Some (Responses.OK "Submitted!" "text/html")
  ∧ w_cache w !! "DELETE" = Some (Responses.OK "Submitted!" "text/html")
  ∧ size (w_cache w) = 3
  ∧ ¬ size (w_cache w) ≤ 2.
Proof. vm_compute. repeat split. lia. Qed.

(** C3, as the code has it: every key of the cache is the method token of
    a request that was read without error, so the cache never holds more
    entries than there are distinct method tokens among the requests
    received, and at most two when every request carries [GET] or [POST]. *)
Theorem cache_keys_are_request_methods enable_cache eps files l es :
  let w := run enable_cache (mkWorld eps files ∅ l) es in
  dom (w_cache w) ⊆ request_methods es
  ∧ size (w_cache w) ≤ size (request_methods es)
  ∧ ((∀ method, method ∈ request_methods es → method = "GET" ∨ method = "POST") →
     size (w_cache w) ≤ 2).
Proof.
  intros w.
  assert (dom (w_cache w) ⊆ request_methods es) as Hdom.
  { subst w. etrans; [apply run_cache_dom|]. cbn [w_cache]. rewrite dom_empty_L.
    by rewrite (left_id_L ∅ (∪)). }
  split; [done|]. split.
  - rewrite <- size_dom. by apply subseteq_size.
  - intros Hmethods. rewrite <- size_dom.
    trans (size ({["GET"; "POST"]} : gset string)).
    + apply subseteq_size. intros method Hin.
      destruct (Hmethods method (Hdom method Hin)) as [-> | ->];
        rewrite elem_of_union, !elem_of_singleton; auto.
    + rewrite size_union by (apply disjoint_singleton_l; rewrite elem_of_singleton; discriminate).
      by rewrite !size_singleton.
Qed.

Lemma cache_keys_are_request_methods_witness :
  size (w_cache (run true example_world
                   [Request Success (request "GET" "/data");
                    Request Success (request "POST" "/submit");
                    Request Success (request "GET" "/data_from_file")])) ≤ 2.
Proof.
  refine (proj2 (proj2 (cache_keys_are_request_methods true example_endpoints no_files []
                          [Request Success (request "GET" "/data");
                           Request Success (request "POST" "/submit");
                           Request Success (request "GET" "/data_from_file")])) _).
  intros method. cbn [request_methods].
  change (method_token (request "GET" "/data")) with "GET".
  change (method_token (request "POST" "/submit")) with "POST".
  change (method_token (request "GET" "/data_from_file")) with "GET".
  rewrite !elem_of_union, !elem_of_singleton, elem_of_empty. tauto.
Defined.

(** ** The life of a session *)

Section SessionLife.

Variable eps : endpoints.
Variable enable_cache : bool.
Variable files : FileSystem.

Lemma one_pending (op op' : AsyncOp) ps1 ps2 :
  [op] = ps1 ++ op' :: ps2 → ps1 = [] ∧ op' = op ∧ ps2 = [].
Proof.
  destruct ps1 as [|? [|? ?]]; intros H; simplify_eq/=; done.
Qed.

(** With nothing outstanding no handler can run any more. *)
Lemma idle_is_final s c s' : pending s = [] → ¬ step eps enable_cache files s c s'.
Proof.
  intros Hidle Hstep.
  inversion Hstep as [? ps1 ? ? ? ? ? ? Hp|? ps1 ? ? ? ? ? Hp]; subst;
    rewrite Hidle in Hp; by destruct ps1.
Qed.

Lemma idle_steps s cs s' :
  pending s = [] → steps eps enable_cache files s cs s' → cs = [] ∧ s' = s.
Proof.
  intros Hidle Hsteps. inversion Hsteps as [|? c s1 ? ? Hstep]; subst; [done|].
  by destruct (idle_is_final _ _ _ Hidle Hstep).
Qed.

(** When the read handler returns for a request read without error,
    exactly one write is outstanding; when it throws, it has done nothing. *)
Lemma on_read_answers request_ s r s' :
  pending s = [] →
  on_read eps enable_cache files Success request_ s = (r, s') →
  (r = Some tt
   ∧ ∃ response,
       socket_ s' = socket_ s ++ [Issued (AsyncWrite response)]
       ∧ pending s' = [AsyncWrite response])
  ∨ (r = None ∧ s' = s).
Proof.
  intros Hidle. destruct (parse_tokens request_) as [version Hparse].
  destruct (on_read_cases eps enable_cache files _ _ _ _ s Hparse)
    as [[_ ->]|[(src & response & _ & _ & _ & ->)
               |[(src & body & l & _ & _ & _ & ->)|(src & _ & _ & _ & ->)]]];
    intros [= <- <-]; [left; split; [done|]..|by right].
  - eexists. simpl. by rewrite Hidle.
  - eexists. simpl. by rewrite Hidle.
  - eexists. destruct enable_cache; simpl; by rewrite Hidle.
Qed.

(** Every run of a session has one of six shapes. *)
Lemma session_run_shapes c l cs s :
  session_run eps enable_cache files c l cs s →
  let answer request_ :=
    responses (serve enable_cache (mkWorld eps files c l) Success request_) in
  (cs = [] ∧ socket_ s = [Issued (AsyncReadUntil (CRLF +:+ CRLF))] ∧ pending s = [AsyncReadUntil (CRLF +:+ CRLF)])
  ∨ (∃ message request_,
       cs = [ReadCompleted (Failure message) request_]
       ∧ socket_ s = [Issued (AsyncReadUntil (CRLF +:+ CRLF))] ∧ pending s = [])
  ∨ (∃ request_ response,
       cs = [ReadCompleted Success request_]
       ∧ answer request_ = [response]
       ∧ socket_ s = [Issued (AsyncReadUntil (CRLF +:+ CRLF)); Issued (AsyncWrite response)]
       ∧ pending s = [AsyncWrite response])
  ∨ (∃ request_ response message,
       cs = [ReadCompleted Success request_; WriteCompleted (Failure message)]
       ∧ answer request_ = [response]
       ∧ socket_ s = [Issued (AsyncReadUntil (CRLF +:+ CRLF)); Issued (AsyncWrite response)]
       ∧ pending s = [])
  ∨ (∃ request_ response,
       cs = [ReadCompleted Success request_; WriteCompleted Success]
       ∧ answer request_ = [response]
       ∧ socket_ s = [Issued (AsyncReadUntil (CRLF +:+ CRLF)); Issued (AsyncWrite response); ShutdownBoth]
       ∧ pending s = [])
  ∨ (∃ request_,
       cs = [ReadCompleted Success request_]
       ∧ s = mkState c l [Issued (AsyncReadUntil (CRLF +:+ CRLF))] []).
Proof.
  intros (s0 & Hstart & Hsteps) answer. injection Hstart as <-.
  inversion Hsteps as [|? c1 s1 cs1 ? Hstep1 Hsteps1]; subst; [by left|right].
  inversion Hstep1 as [? ps1 delim ps2 ec request_ r ? Hp Hread
                      |? ps1 data ps2 ec r ? Hp Hwrite]; subst;
    apply one_pending in Hp as (-> & Hop & ->); [|done].
  destruct ec as [|message].
  - (* the request was read *)
    pose proof Hread as Hread'.
    apply on_read_answers in Hread' as [(-> & response & Hsock & Hpend)|[-> ->]]; [| |done].
    + assert (answer request_ = [response]) as Hanswer.
      { subst answer. cbv beta. rewrite serve_on_read. cbn [w_cache w_log w_endpoints w_files].
        match type of Hread with ?lhs = _ =>
          match goal with |- responses (?lhs').2 = _ => change lhs' with lhs end end.
        rewrite Hread. unfold responses. cbn [snd]. by rewrite Hsock. }
      simpl in Hsock.
      right.
      inversion Hsteps1 as [|? c2 s2 cs2 ? Hstep2 Hsteps2]; subst;
        [left; exists request_, response; by repeat split|right].
      inversion Hstep2 as [? ps1 delim' ps2 ec request_' r ? Hp Hread2
                          |? ps1 data ps2 ec r ? Hp Hwrite]; subst;
        rewrite Hpend in Hp; apply one_pending in Hp as (-> & Hop' & ->); [done|].
      destruct ec as [|message]; simpl in Hwrite; injection Hwrite as <- <-.
      * right; left. apply idle_steps in Hsteps2 as [-> ->]; [|done].
        exists request_, response. simpl. by rewrite Hsock.
      * left. apply idle_steps in Hsteps2 as [-> ->]; [|done].
        exists request_, response, message. simpl. by rewrite Hsock.
    + (* the handler threw *)
      do 4 right. apply idle_steps in Hsteps1 as [-> ->]; [|done]. by exists request_.
  - (* the read failed *)
    left. simpl in Hread. injection Hread as <- <-.
    apply idle_steps in Hsteps1 as [-> ->]; [|done]. eauto.
Qed.

End SessionLife.

(** C8: a session makes one exchange.  A request read without error, on
    which the read handler returns, and a write that completes bring the
    session to its end; in every run of a session, those in which a
    handler throws included, exactly one read is ever started and at most
    one response is written; and once the write has completed
    successfully the socket has been shut down in both directions as the
    last thing done to it, nothing is outstanding, and no handler of the
    session can run again. *)
Theorem one_exchange_per_connection eps enable_cache files c l :
  (∀ request_,
     (on_read eps enable_cache files Success request_
        (mkState c l [Issued (AsyncReadUntil (CRLF +:+ CRLF))] [])).1 = Some tt →
     ∃ s, session_run eps enable_cache files c l
            [ReadCompleted Success request_; WriteCompleted Success] s)
  ∧ ∀ cs s,
      session_run eps enable_cache files c l cs s →
      reads_issued s = 1
      ∧ length (responses s) ≤ 1
      ∧ (WriteCompleted Success ∈ cs →
         ∃ request_ response,
           cs = [ReadCompleted Success request_; WriteCompleted Success]
           ∧ responses (serve enable_cache (mkWorld eps files c l) Success request_) = [response]
           ∧ socket_ s = [Issued (AsyncReadUntil (CRLF +:+ CRLF));
                          Issued (AsyncWrite response);
                          ShutdownBoth]
           ∧ pending s = []
           ∧ ∀ c' s', ¬ step eps enable_cache files s c' s').
Proof.
  split.
  - intros request_ Hreturns.
    destruct (on_read eps enable_cache files Success request_
                (mkState c l [Issued (AsyncReadUntil (CRLF +:+ CRLF))] []))
      as [r s1] eqn:Hread.
    simpl in Hreturns. subst r.
    pose proof Hread as Hread'.
    apply on_read_answers in Hread' as [(_ & response & Hsock & Hpend)|[[=] _]]; [|done].
    eexists. exists (issued (AsyncReadUntil (CRLF +:+ CRLF)) (new_session c l)).
    split; [reflexivity|].
    eapply steps_cons; [|eapply steps_cons; [|apply steps_nil]].
    + eapply (step_read _ _ _ _ [] _ []); [reflexivity | exact Hread].
    + eapply (step_write _ _ _ _ [] _ []); [exact Hpend | reflexivity].
  - intros cs s Hrun.
    destruct (session_run_shapes _ _ _ _ _ _ _ Hrun)
      as [(-> & Hs & Hp)
         |[(message & request_ & -> & Hs & Hp)
          |[(request_ & response & -> & Ha & Hs & Hp)
           |[(request_ & response & message & -> & Ha & Hs & Hp)
            |[(request_ & response & -> & Ha & Hs & Hp)
             |(request_ & -> & Hs)]]]]];
      unfold reads_issued, responses; rewrite Hs; simpl;
      (split; [done|]); (split; [lia|]); intros Hin.
    + by apply elem_of_nil in Hin.
    + apply list_elem_of_singleton in Hin. discriminate.
    + apply list_elem_of_singleton in Hin. discriminate.
    + rewrite !elem_of_cons, elem_of_nil in Hin.
      destruct Hin as [?|[?|[]]]; discriminate.
    + exists request_, response. repeat split; [done..|].
      intros c' s'. by apply idle_is_final.
    + apply list_elem_of_singleton in Hin. discriminate.
Qed.

Lemma one_exchange_per_connection_witness :
  let response := Responses.OK "Some data!" "text/html" in
  let s := mkState (<["GET" := response]> ∅) [responsing "GET" "/data"]
             [Issued (AsyncReadUntil (CRLF +:+ CRLF)); Issued (AsyncWrite response); ShutdownBoth]
             [] in
  session_run example_endpoints true no_files ∅ []
    [ReadCompleted Success (request "GET" "/data"); WriteCompleted Success] s
  ∧ reads_issued s = 1
  ∧ length (responses s) ≤ 1
  ∧ ∃ s', session_run example_endpoints true no_files ∅ []
            [ReadCompleted Success (request "POST" "/submit"); WriteCompleted Success] s'.
Proof.
  intros response s.
  assert (session_run example_endpoints true no_files ∅ []
            [ReadCompleted Success (request "GET" "/data"); WriteCompleted Success] s) as Hrun.
  { exists (issued (AsyncReadUntil (CRLF +:+ CRLF)) (new_session ∅ [])).
    split; [reflexivity|].
    apply (steps_cons _ _ _ _ _
             (mkState (<["GET" := response]> ∅) [responsing "GET" "/data"]
                [Issued (AsyncReadUntil (CRLF +:+ CRLF)); Issued (AsyncWrite response)]
                [AsyncWrite response])).
    - apply (step_read _ _ _ _ [] (CRLF +:+ CRLF) [] _ _ (Some tt));
        [reflexivity | vm_compute; reflexivity].
    - apply (steps_cons _ _ _ _ _ s); [|apply steps_nil].
      apply (step_write _ _ _ _ [] response [] _ (Some tt));
        [reflexivity | vm_compute; reflexivity]. }
  split; [exact Hrun|].
  destruct (proj2 (one_exchange_per_connection example_endpoints true no_files ∅ []) _ _ Hrun)
    as (Hreads & Hwrites & _).
  split; [exact Hreads|]. split; [exact Hwrites|].
  apply (proj1 (one_exchange_per_connection example_endpoints true no_files ∅ [])
           (request "POST" "/submit")).
  vm_compute. reflexivity.
Defined.

(** * Further properties of the code *)

(** ** The resolver *)

(** X1: [getBody] throws in one case only, when the source names a file
    that is opened and whose read then fails; the exception leaves the
    resolver with nothing logged.  Its own indexing never throws: the
    second [substr] is reached only when the source is at least as long
    as the marker.  In every other case it returns, leaves the cache and
    the socket alone and logs nothing, except for the one Error line of
    a file that cannot be opened, in which case the body is empty. *)
Theorem getBody_throws_only_on_failed_read files str s :
  (unreadable files str → getBody files str s = (None, s))
  ∧ (¬ unreadable files str →
     ∃ body l,
       getBody files str s = (Some body, logged l s)
       ∧ (l = []
          ∨ ∃ name,
              str = filePrefix +:+ name ∧ files name = CannotOpen ∧ body = ""
              ∧ l = [(Error, "Can not open file " +:+ name)])).
Proof.
  split; [by apply getBody_unreadable|]. intros Hreadable.
  destruct (prefixed_dec str) as [[name ->]|Hno].
  - rewrite unreadable_prefixed in Hreadable.
    destruct (files name) as [| |content] eqn:E; [|done|].
    + eexists _, _. split; [by apply getBody_missing|]. right. by exists name.
    + exists content, []. rewrite logged_nil. split; [by apply getBody_file | by left].
  - exists str, []. rewrite logged_nil. split; [by apply getBody_literal | by left].
Qed.

Lemma getBody_throws_only_on_failed_read_witness :
  getBody (one_directory "static") "@file:static" (new_session ∅ [])
    = (None, new_session ∅ [])
  ∧ ∃ body l,
      getBody (one_directory "static") "@file:index.html" (new_session ∅ [])
      = (Some body, logged l (new_session ∅ [])).
Proof.
  split.
  - apply (proj1 (getBody_throws_only_on_failed_read (one_directory "static")
                    "@file:static" (new_session ∅ []))).
    exists "static". split; reflexivity.
  - destruct (proj2 (getBody_throws_only_on_failed_read (one_directory "static")
                       "@file:index.html" (new_session ∅ []))) as (body & l & H & _).
    + apply (CannotOpen_readable _ "index.html"). reflexivity.
    + by exists body, l.
Defined.

(** X2: a response source shorter than the marker is a literal body; the
    first [substr] then returns the whole source and the comparison
    fails.  The empty source gives the empty body. *)
Theorem getBody_short_source files str s :
  String.length str < String.length filePrefix →
  getBody files str s = (Some str, s).
Proof.
  intros Hshort. apply getBody_literal. intros name ->.
  rewrite length_app in Hshort. lia.
Qed.

Lemma getBody_short_source_witness :
  getBody (one_file "" "never read") "@file" (new_session ∅ []) = (Some "@file", new_session ∅ [])
  ∧ getBody no_files "" (new_session ∅ []) = (Some "", new_session ∅ []).
Proof.
  split.
  - apply (getBody_short_source (one_file "" "never read") "@file"). simpl. lia.
  - apply (getBody_short_source no_files ""). simpl. lia.
Defined.

(** ** The read handler *)

(** X3: the read handler answers every request it can resolve.  For a
    request read without error it either returns, having handed exactly
    one response to [do_write] and done nothing else to the socket (it
    never shuts it down itself), the response being the not-found
    response, the entry cached under the request's method token or a 200
    rendering; or it throws, which happens only when the request matches
    an endpoint that has to be resolved and whose file is opened and
    cannot be read, and then nothing has been written, logged or cached.
    For a read that failed it writes nothing and only logs one Error
    line. *)
Theorem on_read_answers_or_throws eps enable_cache files request_ s :
  ((∃ response s',
      on_read eps enable_cache files Success request_ s = (Some tt, s')
      ∧ socket_ s' = socket_ s ++ [Issued (AsyncWrite response)]
      ∧ pending s' = pending s ++ [AsyncWrite response]
      ∧ (response = Responses.NOT_OK Responses.NOT_OK_default_body
         ∨ (enable_cache = true ∧ cache s !! method_token request_ = Some response)
         ∨ ∃ body, response = Responses.OK body Responses.OK_default_content_type))
   ∨ (on_read eps enable_cache files Success request_ s = (None, s)
      ∧ ∃ src,
          eps !! path_token request_ = Some (src, method_of (method_token request_))
          ∧ (enable_cache = false ∨ cache s !! method_token request_ = None)
          ∧ unreadable files src))
  ∧ ∀ message,
      on_read eps enable_cache files (Failure message) request_ s
      = (Some tt, logged [(Error, "Internal error in do_read() function: " +:+ message)] s).
Proof.
  split; [|done].
  destruct (parse_tokens request_) as [version Hparse].
  destruct (on_read_cases eps enable_cache files _ _ _ _ s Hparse)
    as [[_ ->]|[(src & response & _ & Hec & Hc & ->)
               |[(src & body & l & _ & _ & _ & ->)|(src & Hep & Hmiss & Hthrows & ->)]]].
  - left. eexists _, _. split; [done|]. repeat split. by left.
  - left. eexists _, _. split; [done|]. repeat split. right; left. done.
  - left. eexists _, _. split; [done|].
    destruct enable_cache; repeat split; right; right; eauto.
  - right. split; [done|]. by exists src.
Qed.

Lemma on_read_answers_or_throws_witness :
  on_read (AddEndpoint "/dir" "@file:static" "GET" ∅) true (one_directory "static") Success
    (request "GET" "/dir") (new_session ∅ [])
  = (None, new_session ∅ []).
Proof.
  destruct (proj1 (on_read_answers_or_throws (AddEndpoint "/dir" "@file:static" "GET" ∅) true
                     (one_directory "static") (request "GET" "/dir") (new_session ∅ [])))
    as [(response & s' & H & _)|[H _]].
  - vm_compute in H. discriminate H.
  - exact H.
Defined.

(** X4: only the method and the path of the request line reach the
    routing: two buffers with the same first two words are handled in
    exactly the same way, so the version, the headers and the body of a
    request have no effect on the response, the cache or the log. *)
Theorem on_read_ignores_rest eps enable_cache files request1 request2 s :
  method_token request1 = method_token request2 →
  path_token request1 = path_token request2 →
  on_read eps enable_cache files Success request1 s
  = on_read eps enable_cache files Success request2 s.
Proof.
  intros Hm Hp.
  destruct (parse_tokens request1) as [v1 H1]. destruct (parse_tokens request2) as [v2 H2].
  rewrite (on_read_route _ _ _ _ _ _ _ _ H1), (on_read_route _ _ _ _ _ _ _ _ H2).
  by rewrite Hm, Hp.
Qed.

Lemma on_read_ignores_rest_witness :
  on_read example_endpoints true no_files Success (request "GET" "/data") (new_session ∅ [])
  = on_read example_endpoints true no_files Success
      ("GET /data HTTP/0.9" +:+ CRLF +:+ "X-Header: 1" +:+ CRLF +:+ CRLF +:+ "body")
      (new_session ∅ []).
Proof.
  apply (on_read_ignores_rest example_endpoints true no_files (request "GET" "/data")).
  - vm_compute. reflexivity.
  - vm_compute. reflexivity.
Defined.

(** ** The request line *)

Lemma getline_line (line rest : string) :
  no_line_feed line = true → getline (line +:+ String LF rest) = line.
Proof.
  induction line as [|c line IH]; intros H.
  - change ("" +:+ String LF rest) with (String LF rest). cbn [getline].
    by rewrite decide_True.
  - apply andb_prop in H as [Hc Hline]. rewrite app_cons. cbn [getline].
    apply negb_true_iff, bool_decide_eq_false in Hc.
    rewrite decide_False by done. by rewrite IH.
Qed.

(** X5: the request line ends at the first line feed of the buffer:
    whatever follows it is never looked at. *)
Theorem first_line_decides eps enable_cache files line rest1 rest2 s :
  no_line_feed line = true →
  on_read eps enable_cache files Success (line +:+ String LF rest1) s
  = on_read eps enable_cache files Success (line +:+ String LF rest2) s.
Proof.
  intros Hline. unfold on_read. by rewrite !(getline_line line) by done.
Qed.

Lemma first_line_decides_witness :
  on_read example_endpoints true no_files Success
    ("POST /submit HTTP/1.1" +:+ String LF "Content-Length: 3") (new_session ∅ [])
  = on_read example_endpoints true no_files Success
      ("POST /submit HTTP/1.1" +:+ String LF "") (new_session ∅ []).
Proof.
  apply (first_line_decides example_endpoints true no_files "POST /submit HTTP/1.1").
  reflexivity.
Defined.

Lemma getline_no_line_feed (a b : string) :
  no_line_feed a = true → getline (a +:+ b) = a +:+ getline b.
Proof.
  induction a as [|c a IH]; intros H; [done|].
  apply andb_prop in H as [Hc Ha]. rewrite !app_cons. cbn [getline].
  apply negb_true_iff, bool_decide_eq_false in Hc.
  rewrite decide_False by done. by rewrite IH.
Qed.

Lemma no_space_no_line_feed (w : string) : no_space w = true → no_line_feed w = true.
Proof.
  induction w as [|c w IH]; [done|]. intros [Hc Hw]%andb_prop. simpl.
  rewrite IH by done. rewrite andb_true_r. apply negb_true_iff, bool_decide_eq_false.
  intros ->. done.
Qed.

Lemma skip_spaces_all_space (ws x : string) :
  all_space ws = true → skip_spaces (ws +:+ x) = skip_spaces x.
Proof.
  induction ws as [|c ws IH]; intros H; [done|].
  apply andb_prop in H as [Hc Hws]. rewrite app_cons. simpl. by rewrite Hc, IH.
Qed.

Lemma skip_spaces_blank (ws : string) : all_space ws = true → skip_spaces ws = "".
Proof.
  induction ws as [|c ws IH]; [done|]. intros [Hc Hws]%andb_prop. simpl. by rewrite Hc, IH.
Qed.

(** What can follow a word: the end of the line or a white space. *)
Lemma take_word_tail (w tail : string) :
  no_space w = true →
  tail = "" ∨ (∃ c r, tail = String c r ∧ Ascii.is_space c = true) →
  take_word (w +:+ tail) = (w, tail).
Proof.
  intros Hw Htail. induction w as [|c' w IH].
  - change ("" +:+ tail) with tail. destruct Htail as [->|(c & r & -> & Hc)]; [done|].
    simpl. by rewrite Hc.
  - apply andb_prop in Hw as [Hc' Hw]. rewrite app_cons. simpl.
    apply negb_true_iff in Hc'. by rewrite Hc', IH.
Qed.

Lemma extract_spaced_word (ws w tail : string) :
  all_space ws = true → w ≠ "" → no_space w = true →
  tail = "" ∨ (∃ c r, tail = String c r ∧ Ascii.is_space c = true) →
  extract (ws +:+ w +:+ tail) = (w, tail).
Proof.
  intros Hws Hne Hw Htail. unfold extract. rewrite skip_spaces_all_space by done.
  assert (skip_spaces (w +:+ tail) = w +:+ tail) as ->.
  { destruct w as [|c w]; [done|]. apply andb_prop in Hw as [Hc _].
    rewrite app_cons. simpl. apply negb_true_iff in Hc. by rewrite Hc. }
  by apply take_word_tail.
Qed.

(** X6: the words of the request line may be separated by any white
    space, tabs and carriage returns included, and white space before the
    method is skipped: such a line is routed by its first two words. *)
Theorem request_line_whitespace eps enable_cache files ws1 method ws2 path c rest s :
  all_space ws1 = true → no_line_feed ws1 = true →
  method ≠ "" → no_space method = true →
  ws2 ≠ "" → all_space ws2 = true → no_line_feed ws2 = true →
  path ≠ "" → no_space path = true →
  Ascii.is_space c = true →
  on_read eps enable_cache files Success
    (ws1 +:+ method +:+ ws2 +:+ path +:+ String c rest) s
  = route eps enable_cache files method path s.
Proof.
  intros Hws1 Hlf1 Hm Hmw Hws2 Hsp2 Hlf2 Hp Hpw Hc. unfold on_read.
  assert (∃ tail, getline (ws1 +:+ method +:+ ws2 +:+ path +:+ String c rest)
                  = ws1 +:+ method +:+ ws2 +:+ path +:+ tail
                  ∧ (tail = "" ∨ ∃ c' r, tail = String c' r ∧ Ascii.is_space c' = true))
    as (tail & -> & Htail).
  { rewrite (getline_no_line_feed ws1) by done.
    rewrite (getline_no_line_feed method) by by apply no_space_no_line_feed.
    rewrite (getline_no_line_feed ws2) by done.
    rewrite (getline_no_line_feed path) by by apply no_space_no_line_feed.
    cbn [getline]. destruct (decide (c = LF)); eauto 10. }
  assert (∃ version, parse_request_line (ws1 +:+ method +:+ ws2 +:+ path +:+ tail)
                     = (method, path, version)) as [version Hparse].
  { unfold parse_request_line.
    assert (∃ c2 r, ws2 +:+ path +:+ tail = String c2 r ∧ Ascii.is_space c2 = true) as Hnext.
    { destruct ws2 as [|c2 ws2]; [done|]. apply andb_prop in Hsp2 as [? _].
      rewrite app_cons. eauto. }
    rewrite (extract_spaced_word ws1 method) by auto.
    rewrite (extract_spaced_word ws2 path) by done.
    destruct (extract tail) as [version ?]. by exists version. }
  by rewrite Hparse.
Qed.

Lemma request_line_whitespace_witness :
  on_read example_endpoints false no_files Success
    (" " +:+ "GET" +:+ String "009" (String "009" "") +:+ "/data" +:+ String CR (String LF ""))
    (new_session ∅ [])
  = route example_endpoints false no_files "GET" "/data" (new_session ∅ []).
Proof.
  apply (request_line_whitespace example_endpoints false no_files
           " " "GET" (String "009" (String "009" "")) "/data" CR (String LF ""));
    (reflexivity || discriminate).
Defined.

(** X7: a request line without a word, empty or blank, is routed with
    the empty method and the empty path, that is as a POST request for
    the path [""]; it gets the not-found response unless an endpoint is
    registered under the empty path with POST. *)
Theorem blank_request_line eps enable_cache files request_ s :
  all_space (getline request_) = true →
  on_read eps enable_cache files Success request_ s
  = route eps enable_cache files "" "" s
  ∧ ((eps !! "" = None ∨ ∃ src, eps !! "" = Some (src, GET)) →
     responses (on_read eps enable_cache files Success request_ s).2
     = responses s ++ [Responses.NOT_OK Responses.NOT_OK_default_body]).
Proof.
  intros Hblank.
  assert (parse_request_line (getline request_) = ("", "", "")) as Hparse.
  { unfold parse_request_line, extract. rewrite (skip_spaces_blank _ Hblank). reflexivity. }
  rewrite (on_read_route _ _ _ _ _ _ _ _ Hparse). split; [done|].
  intros Hun.
  assert (route eps enable_cache files "" "" s = not_found "" "" s) as ->.
  { destruct Hun as [Hnone|[src Hget]].
    - by apply route_unregistered.
    - by apply (route_mismatch _ _ _ _ _ src GET). }
  rewrite not_found_run. unfold responses. simpl. by rewrite omap_app.
Qed.

Lemma blank_request_line_witness :
  responses (on_read example_endpoints true no_files Success (CRLF +:+ CRLF)
               (new_session ∅ [])).2
  = [Responses.NOT_OK Responses.NOT_OK_default_body].
Proof.
  refine (proj2 (blank_request_line example_endpoints true no_files (CRLF +:+ CRLF)
                   (new_session ∅ []) _) _).
  - reflexivity.
  - left. vm_compute. reflexivity.
Defined.

(** ** Registration and routing together *)

Lemma route_lookup eps1 eps2 enable_cache files method path s :
  eps1 !! path = eps2 !! path →
  route eps1 enable_cache files method path s = route eps2 enable_cache files method path s.
Proof. intros H. unfold route. by rewrite H. Qed.

Lemma serve_lookup enable_cache eps1 eps2 files c l ec request_ :
  eps1 !! path_token request_ = eps2 !! path_token request_ →
  serve enable_cache (mkWorld eps1 files c l) ec request_
  = serve enable_cache (mkWorld eps2 files c l) ec request_.
Proof.
  intros H. rewrite !serve_on_read. cbn [w_endpoints w_files w_cache w_log].
  destruct ec as [|message]; [|done].
  destruct (parse_tokens request_) as [version Hparse].
  rewrite !(on_read_route _ _ _ _ _ _ _ _ Hparse).
  by rewrite (route_lookup eps1 eps2).
Qed.

(** X8: the method given to [AddEndpoint] is compared with the exact
    string [GET]; any other string, such as [get] or the empty string,
    registers a POST endpoint, so a GET request for that path is answered
    with the not-found response. *)
Theorem AddEndpoint_other_method_is_post enable_cache path response method eps files c l
    request_ version :
  method ≠ "GET" →
  parse_request_line (getline request_) = ("GET", path, version) →
  AddEndpoint path response method eps !! path = Some (response, POST)
  ∧ responses (serve enable_cache (mkWorld (AddEndpoint path response method eps) files c l)
                 Success request_)
    = [Responses.NOT_OK Responses.NOT_OK_default_body].
Proof.
  intros Hne Hparse.
  assert (AddEndpoint path response method eps !! path = Some (response, POST)) as Hep.
  { unfold AddEndpoint, addEndpoint, method_of. rewrite decide_False by done.
    apply lookup_insert_eq. }
  split; [done|].
  rewrite (serve_unmatched _ _ _ _ _ _ Hparse); [done|].
  right. exists response, POST. split; [done | discriminate].
Qed.

Lemma AddEndpoint_other_method_is_post_witness :
  AddEndpoint "/lower" "body" "get" ∅ !! "/lower" = Some ("body", POST)
  ∧ responses (serve false (mkWorld (AddEndpoint "/lower" "body" "get" ∅) no_files ∅ [])
                 Success (request "GET" "/lower"))
    = [Responses.NOT_OK Responses.NOT_OK_default_body].
Proof.
  apply (AddEndpoint_other_method_is_post false "/lower" "body" "get" ∅ no_files ∅ []
           (request "GET" "/lower") "HTTP/1.1").
  - discriminate.
  - vm_compute. reflexivity.
Defined.

(** X9: registration and routing read a method string in the same way,
    so a request whose method token is the very string an endpoint was
    registered with always matches it, whatever that string is: unless a
    response is cached under the token, the request is answered 200 with
    the body resolved from the registered response (there being one
    whenever the response does not name a file whose read fails). *)
Theorem registered_method_matches_itself enable_cache path response method eps files c l
    request_ version :
  parse_request_line (getline request_) = (method, path, version) →
  enable_cache = false ∨ c !! method = None →
  ¬ unreadable files response →
  ∃ body,
    (∀ s, (getBody files response s).1 = Some body)
    ∧ responses (serve enable_cache (mkWorld (AddEndpoint path response method eps) files c l)
                   Success request_)
      = [Responses.OK body Responses.OK_default_content_type].
Proof.
  intros Hparse Hmiss Hreadable.
  destruct (serve_miss enable_cache (mkWorld (AddEndpoint path response method eps) files c l)
              _ _ _ _ response Hparse) as (body & l' & Hbody & ->); [|done..|].
  { unfold AddEndpoint, addEndpoint. apply lookup_insert_eq. }
  exists body. split; [|done]. intros s. by rewrite Hbody.
Qed.

Lemma registered_method_matches_itself_witness :
  ∃ body,
    (∀ s, (getBody no_files "patched" s).1 = Some body)
    ∧ responses (serve true (mkWorld (AddEndpoint "/item" "patched" "PATCH" ∅) no_files ∅ [])
                   Success (request "PATCH" "/item"))
      = [Responses.OK body Responses.OK_default_content_type].
Proof.
  apply (registered_method_matches_itself true "/item" "patched" "PATCH" ∅ no_files ∅ []
           (request "PATCH" "/item") "HTTP/1.1").
  - vm_compute. reflexivity.
  - right. reflexivity.
  - intros (name & _ & H). discriminate H.
Defined.

(** X10: registrations are independent across paths.  Registering a path
    leaves the handling of every request for another path as it was,
    and two registrations of different paths give the same table in
    either order. *)
Theorem registration_frame enable_cache path response method w :
  (∀ ec request_,
     path_token request_ ≠ path →
     serve enable_cache (handle enable_cache w (Register path response method)) ec request_
     = serve enable_cache w ec request_)
  ∧ ∀ path' response' method',
      path ≠ path' →
      handle enable_cache (handle enable_cache w (Register path response method))
        (Register path' response' method')
      = handle enable_cache (handle enable_cache w (Register path' response' method'))
          (Register path response method).
Proof.
  split.
  - intros ec request_ Hne. destruct w as [eps files c l]. cbn [handle w_endpoints w_files w_cache w_log].
    apply serve_lookup. unfold AddEndpoint, addEndpoint. by rewrite lookup_insert_ne.
  - intros path' response' method' Hne. simpl. unfold AddEndpoint, addEndpoint.
    by rewrite insert_insert_ne.
Qed.

Lemma registration_frame_witness :
  serve true (handle true example_world (Register "/new" "N" "GET")) Success
    (request "GET" "/data")
  = serve true example_world Success (request "GET" "/data").
Proof.
  apply (proj1 (registration_frame true "/new" "N" "GET" example_world)).
  vm_compute. discriminate.
Defined.

(** ** The cache *)

(** X11: an entry of the cache is permanent and is served as it is.
    Once a method token has an entry, no later request, registration or
    change of the files alters or removes it, and every matching request
    with that token is answered with the entry verbatim: the resolver is
    not called (no file is read, nothing but the one Info line is
    logged) and the cache stays as it is. *)
Theorem cache_hit_is_verbatim w token response es request_ path version src :
  w_cache w !! token = Some response →
  parse_request_line (getline request_) = (token, path, version) →
  w_endpoints (run true w es) !! path = Some (src, method_of token) →
  w_cache (run true w es) !! token = Some response
  ∧ serve true (run true w es) Success request_
    = mkState (w_cache (run true w es))
        (w_log (run true w es) ++ [responsing token path])
        [Issued (AsyncReadUntil (CRLF +:+ CRLF)); Issued (AsyncWrite response)]
        [AsyncWrite response].
Proof.
  intros Hc Hparse Hep.
  pose proof (run_cache_keeps true es _ _ _ Hc) as Hkept.
  split; [done|]. by apply (serve_hit _ _ _ _ version src).
Qed.

Lemma cache_hit_is_verbatim_witness :
  let w := mkWorld example_endpoints no_files {["POST" := "anything"]} [] in
  responses (serve true (run true w [Files (one_file "index.html" "x")]) Success
               (request "POST" "/submit"))
  = ["anything"].
Proof.
  intros w.
  pose proof (proj2 (cache_hit_is_verbatim w "POST" "anything"
                       [Files (one_file "index.html" "x")]
                       (request "POST" "/submit") "/submit" "HTTP/1.1" "Submitted!"
                       ltac:(vm_compute; reflexivity) ltac:(vm_compute; reflexivity)
                       ltac:(vm_compute; reflexivity))) as H.
  by rewrite H.
Defined.

Lemma handle_cache_rendered enable_cache w e :
  w_cache (handle enable_cache w e) = w_cache w
  ∨ ∃ key body,
      w_cache w !! key = None
      ∧ w_cache (handle enable_cache w e)
        = <[key := Responses.OK body Responses.OK_default_content_type]> (w_cache w).
Proof.
  destruct e as [[|message] request_| |]; [|by left..].
  destruct (parse_tokens request_) as [version Hparse].
  cbn [handle w_cache]. rewrite serve_on_read.
  destruct (on_read_cases (w_endpoints w) enable_cache (w_files w) _ _ _ _
              (mkState (w_cache w) (w_log w) [Issued (AsyncReadUntil (CRLF +:+ CRLF))] [])
              Hparse)
    as [[_ ->]|[(src & response & _ & _ & _ & ->)
               |[(src & body & l & _ & Hmiss & _ & ->)|(src & _ & _ & _ & ->)]]];
    [by left..| |by left].
  destruct enable_cache; [|by left].
  destruct Hmiss as [|Hnone]; [done|]. right. eauto.
Qed.

Lemma OK_is_not_NOT_OK body content_type body' :
  Responses.OK body content_type ≠ Responses.NOT_OK body'.
Proof. discriminate. Qed.

(** X12: the cache of a server that started with an empty cache holds
    only 200 responses, each the rendering of some body with the default
    content type; the not-found response is never in it. *)
Theorem cache_holds_only_200 enable_cache eps files l es key value :
  w_cache (run enable_cache (mkWorld eps files ∅ l) es) !! key = Some value →
  (∃ body, value = Responses.OK body Responses.OK_default_content_type)
  ∧ ∀ body', value ≠ Responses.NOT_OK body'.
Proof.
  intros Hvalue.
  assert (∃ body, value = Responses.OK body Responses.OK_default_content_type) as [body ->].
  { revert key value Hvalue.
    assert (∀ w, (∀ key value, w_cache w !! key = Some value →
                   ∃ body, value = Responses.OK body Responses.OK_default_content_type) →
                 ∀ key value, w_cache (run enable_cache w es) !! key = Some value →
                   ∃ body, value = Responses.OK body Responses.OK_default_content_type) as Hinv.
    { induction es as [|e es IH]; intros w Hw; [done|].
      change (run enable_cache w (e :: es))
        with (run enable_cache (handle enable_cache w e) es).
      apply IH. intros key value.
      destruct (handle_cache_rendered enable_cache w e) as [->|(key' & body & _ & ->)];
        [by apply Hw|].
      destruct (decide (key' = key)) as [->|Hne].
      - rewrite lookup_insert_eq. intros [= <-]. by exists body.
      - rewrite lookup_insert_ne by done. by apply Hw. }
    apply Hinv. intros key value. cbn [w_cache]. by rewrite lookup_empty. }
  split; [by exists body|]. intros body'. apply OK_is_not_NOT_OK.
Qed.

Lemma cache_holds_only_200_witness :
  (∃ body, Responses.OK "Submitted!" "text/html"
           = Responses.OK body Responses.OK_default_content_type)
  ∧ ∀ body', Responses.OK "Submitted!" "text/html" ≠ Responses.NOT_OK body'.
Proof.
  apply (cache_holds_only_200 true example_endpoints no_files []
           [Request Success (request "GET" "/nowhere");
            Request Success (request "DELETE" "/submit")] "DELETE").
  vm_compute. reflexivity.
Defined.

(** X13: the log is written and never read.  Two servers that differ in
    their log only answer a connection in the same way: the same cache,
    the same operations on the socket, and the same lines added to
    either log, which keeps all the lines it had. *)
Theorem log_never_influences enable_cache eps files c l1 l2 ec request_ :
  let s1 := serve enable_cache (mkWorld eps files c l1) ec request_ in
  let s2 := serve enable_cache (mkWorld eps files c l2) ec request_ in
  cache s1 = cache s2 ∧ socket_ s1 = socket_ s2 ∧ pending s1 = pending s2
  ∧ ∃ added, logFile s1 = l1 ++ added ∧ logFile s2 = l2 ++ added.
Proof.
  intros s1 s2. subst s1 s2. rewrite !serve_on_read. cbn [w_endpoints w_files w_cache w_log].
  destruct ec as [|message].
  - destruct (parse_tokens request_) as [version Hparse].
    destruct (on_read_cases eps enable_cache files _ _ _ _
                (mkState c l1 [Issued (AsyncReadUntil (CRLF +:+ CRLF))] []) Hparse)
      as [[Hun ->]|[(src & response & Hep & Hec & Hc & ->)
                   |[(src & body & l & Hep & Hmiss & Hbody & ->)
                    |(src & Hep & Hmiss & Hthrows & ->)]]];
      destruct (on_read_cases eps enable_cache files _ _ _ _
                  (mkState c l2 [Issued (AsyncReadUntil (CRLF +:+ CRLF))] []) Hparse)
        as [[Hun' ->]|[(src' & response' & Hep' & Hec' & Hc' & ->)
                      |[(src' & body' & l' & Hep' & Hmiss' & Hbody' & ->)
                       |(src' & Hep' & Hmiss' & Hthrows' & ->)]]];
      cbn [cache] in *;
      try (destruct Hun as [?|(? & ? & ? & ?)]; congruence);
      try (destruct Hun' as [?|(? & ? & ? & ?)]; congruence);
      try (destruct Hmiss; congruence); try (destruct Hmiss'; congruence).
    + repeat split. by eexists.
    + assert (response' = response) as -> by congruence. repeat split. by eexists.
    + assert (src' = src) as -> by congruence.
      pose proof (Hbody (new_session ∅ [])) as H1. rewrite Hbody' in H1.
      assert (body' = body ∧ l' = l) as [-> ->].
      { unfold logged in H1. simpl in H1. by simplify_eq. }
      destruct enable_cache; repeat split;
        exists (l ++ [responsing (method_token request_) (path_token request_)]);
        simpl; by rewrite !app_assoc.
    + assert (src' = src) as -> by congruence.
      specialize (Hbody (new_session ∅ [])).
      rewrite (getBody_unreadable _ _ _ Hthrows') in Hbody. congruence.
    + assert (src' = src) as -> by congruence.
      specialize (Hbody' (new_session ∅ [])).
      rewrite (getBody_unreadable _ _ _ Hthrows) in Hbody'. congruence.
    + repeat split. exists []. by rewrite !app_nil_r.
  - repeat split. by eexists.
Qed.

(** X14: a file behind an endpoint is read when a request is resolved,
    not when the endpoint is registered.  With caching off a request
    made after the file changed is answered with the new contents; with
    caching on the first rendering was stored under the method token,
    and the request is answered with the old contents. *)
Theorem file_read_at_request_time enable_cache w files2 request_ method path version name
    content1 content2 :
  parse_request_line (getline request_) = (method, path, version) →
  w_endpoints w !! path = Some (filePrefix +:+ name, method_of method) →
  w_cache w !! method = None →
  w_files w name = Contents content1 →
  files2 name = Contents content2 →
  let w1 := handle enable_cache w (Request Success request_) in
  let w2 := handle enable_cache w1 (Files files2) in
  responses (serve enable_cache w Success request_)
    = [Responses.OK content1 Responses.OK_default_content_type]
  ∧ responses (serve enable_cache w2 Success request_)
    = [Responses.OK (if enable_cache then content1 else content2)
         Responses.OK_default_content_type].
Proof.
  intros Hparse Hep Hnone Hfile1 Hfile2 w1 w2.
  destruct (serve_miss enable_cache w _ _ _ _ _ Hparse Hep) as (body & l & Hbody & Hs);
    [by right|by apply (Contents_readable _ _ content1)|].
  assert (body = content1) as ->.
  { specialize (Hbody (new_session ∅ [])).
    rewrite (getBody_file _ _ _ _ Hfile1) in Hbody. congruence. }
  cbn zeta in Hs. split; [by rewrite Hs|].
  assert (w_endpoints w2 !! path = Some (filePrefix +:+ name, method_of method)) as Hep2 by done.
  destruct enable_cache.
  - assert (w_cache w2 !! method
            = Some (Responses.OK content1 Responses.OK_default_content_type)) as Hc2.
    { subst w2 w1. cbn [handle w_cache]. rewrite Hs. cbn [cache]. apply lookup_insert_eq. }
    by rewrite (serve_hit _ _ _ _ _ _ _ Hparse Hep2 Hc2).
  - destruct (serve_miss false w2 _ _ _ _ _ Hparse Hep2) as (body2 & l2 & Hbody2 & ->);
      [by left|by apply (Contents_readable _ _ content2)|].
    assert (body2 = content2) as ->; [|done].
    specialize (Hbody2 (new_session ∅ [])). subst w2. cbn [handle w_files] in Hbody2.
    rewrite (getBody_file _ _ _ _ Hfile2) in Hbody2. congruence.
Qed.

Lemma file_read_at_request_time_witness :
  let w := mkWorld example_endpoints (one_file "index.html" "old") ∅ [] in
  let w2 off_or_on :=
    handle off_or_on (handle off_or_on w (Request Success (request "GET" "/data_from_file")))
      (Files (one_file "index.html" "new")) in
  responses (serve false (w2 false) Success (request "GET" "/data_from_file"))
    = [Responses.OK "new" "text/html"]
  ∧ responses (serve true (w2 true) Success (request "GET" "/data_from_file"))
    = [Responses.OK "old" "text/html"].
Proof.
  intros w w2. split.
  - apply (proj2 (file_read_at_request_time false w (one_file "index.html" "new")
                    (request "GET" "/data_from_file") "GET" "/data_from_file" "HTTP/1.1"
                    "index.html" "old" "new"
                    ltac:(vm_compute; reflexivity) ltac:(vm_compute; reflexivity)
                    ltac:(vm_compute; reflexivity) ltac:(vm_compute; reflexivity)
                    ltac:(vm_compute; reflexivity))).
  - apply (proj2 (file_read_at_request_time true w (one_file "index.html" "new")
                    (request "GET" "/data_from_file") "GET" "/data_from_file" "HTTP/1.1"
                    "index.html" "old" "new"
                    ltac:(vm_compute; reflexivity) ltac:(vm_compute; reflexivity)
                    ltac:(vm_compute; reflexivity) ltac:(vm_compute; reflexivity)
                    ltac:(vm_compute; reflexivity))).
Defined.

(** ** The templates *)

Lemma all_digits_string_of_uint (d : Decimal.uint) :
  all_digits (NilEmpty.string_of_uint d) = true.
Proof. induction d; simpl; auto. Qed.

Lemma all_digits_to_string (n : nat) : all_digits (to_string n) = true.
Proof.
  unfold to_string, NilZero.string_of_uint.
  destruct (Nat.to_uint n) eqn:E; try done; rewrite <- E; apply all_digits_string_of_uint.
Qed.

Lemma to_string_inj (n n' : nat) : to_string n = to_string n' → n = n'.
Proof.
  intros H. pose proof (of_to_string n) as Hn. rewrite H, of_to_string in Hn. congruence.
Qed.

(** A numeral is delimited by the carriage return that follows it. *)
Lemma digits_until_CR (d1 d2 r1 r2 : string) :
  all_digits d1 = true → all_digits d2 = true →
  d1 +:+ String CR r1 = d2 +:+ String CR r2 → d1 = d2 ∧ r1 = r2.
Proof.
  revert d2. induction d1 as [|c1 d1 IH]; intros [|c2 d2] H1 H2 E.
  - by injection E.
  - rewrite app_cons in E. injection E as <- _. by apply andb_prop in H2 as [? _].
  - rewrite app_cons in E. injection E as -> _. by apply andb_prop in H1 as [? _].
  - rewrite !app_cons in E. injection E as -> E.
    apply andb_prop in H1 as [_ H1]. apply andb_prop in H2 as [_ H2].
    destruct (IH d2 H1 H2 E) as [-> ->]. done.
Qed.

Lemma app_inj_length (a a' b b' : string) :
  a +:+ b = a' +:+ b' → String.length b = String.length b' → a = a' ∧ b = b'.
Proof.
  revert a'. induction a as [|c a IH]; intros [|c' a'] E Hlen.
  - done.
  - change ("" +:+ b) with b in E. subst b. rewrite app_cons in Hlen. simpl in Hlen.
    rewrite length_app in Hlen. lia.
  - change ("" +:+ b') with b' in E. subst b'. rewrite app_cons in Hlen. simpl in Hlen.
    rewrite length_app in Hlen. lia.
  - rewrite !app_cons in E. injection E as -> E. destruct (IH a' E Hlen) as [-> ->]. done.
Qed.

(** X15: a rendered 200 response determines what it was rendered from:
    two calls of [OK] give the same string only for the same body and
    the same content type, the Content-Length numeral telling where the
    body starts. *)
Theorem OK_is_injective body content_type body' content_type' :
  Responses.OK body content_type = Responses.OK body' content_type' →
  body = body' ∧ content_type = content_type'.
Proof.
  unfold Responses.OK. intros E.
  apply (inj (String.app "HTTP/1.1 200 OK")) in E.
  apply (inj (String.app CRLF)) in E.
  apply (inj (String.app "Content-Length: ")) in E.
  change (CRLF +:+ ?x) with (String CR (String LF x)) in E.
  apply digits_until_CR in E as [Hlen E]; [|apply all_digits_to_string..].
  apply to_string_inj in Hlen.
  injection E as E.
  apply (inj (String.app "")) in E.
  apply app_inj_length in E as [-> E].
  - split; [|done]. by do 2 apply (inj (String.app CRLF)) in E.
  - by rewrite !length_app, Hlen.
Qed.

Lemma OK_is_injective_witness :
  "<p>hi</p>" = "<p>hi</p>" ∧ "text/html" = "text/html".
Proof.
  apply (OK_is_injective "<p>hi</p>" "text/html" "<p>hi</p>" "text/html"). reflexivity.
Defined.

(** ** Failures in the life of a session *)

(** X16: the socket is shut down in exactly one case, after a write that
    completed without error.  When the read or the write fails the
    session ends there: nothing is outstanding, so nothing is retried;
    no shutdown is ever issued; a failed read has written nothing; and
    the last line of the log is the Error line of the failure. *)
Theorem shutdown_only_after_successful_write eps enable_cache files c l cs s :
  session_run eps enable_cache files c l cs s →
  (ShutdownBoth ∈ socket_ s ↔ WriteCompleted Success ∈ cs)
  ∧ (∀ message request_,
       ReadCompleted (Failure message) request_ ∈ cs →
       pending s = [] ∧ responses s = []
       ∧ logFile s = l ++ [(Error, "Internal error in do_read() function: " +:+ message)])
  ∧ (∀ message,
       WriteCompleted (Failure message) ∈ cs →
       pending s = [] ∧ length (responses s) = 1
       ∧ last (logFile s)
         = Some (Error, "Internal boost error of code " +:+ message +:+ "; Stopping the server.")).
Proof.
  intros Hrun. pose proof Hrun as (s0 & Hstart & Hsteps).
  injection Hstart as <-.
  destruct (session_run_shapes _ _ _ _ _ _ _ Hrun)
    as [(-> & Hs & Hp)
       |[(message & request_ & -> & Hs & Hp)
        |[(request_ & response & -> & Ha & Hs & Hp)
         |[(request_ & response & message & -> & Ha & Hs & Hp)
          |[(request_ & response & -> & Ha & Hs & Hp)
           |(request_ & -> & Hs)]]]]];
    unfold responses; rewrite Hs; cbn [socket_]; (split; [|split]).
  - rewrite ?elem_of_cons, ?elem_of_nil; split; intros H;
      repeat (destruct H as [H|H]; try discriminate H); try done; auto 6.
  - intros ? ? []%elem_of_nil.
  - intros ? []%elem_of_nil.
  - rewrite ?elem_of_cons, ?elem_of_nil; split; intros H;
      repeat (destruct H as [H|H]; try discriminate H); try done; auto 6.
  - intros message' request' [= <- <-]%list_elem_of_singleton.
    split; [done|]. split; [done|].
    inversion Hsteps as [|? c1 s1 cs1 ? Hstep1 Hsteps1]; subst.
    inversion Hstep1 as [? ps1 delim ps2 ec rq r ? Hpend Hread|]; subst.
    apply one_pending in Hpend as (-> & _ & ->).
    injection Hread as <- <-.
    apply idle_steps in Hsteps1 as [_ ->]; done.
  - intros ? [=]%list_elem_of_singleton.
  - rewrite ?elem_of_cons, ?elem_of_nil; split; intros H;
      repeat (destruct H as [H|H]; try discriminate H); try done; auto 6.
  - intros ? ? [=]%list_elem_of_singleton.
  - intros ? [=]%list_elem_of_singleton.
  - rewrite ?elem_of_cons, ?elem_of_nil; split; intros H;
      repeat (destruct H as [H|H]; try discriminate H); try done; auto 6.
  - intros ? ? [[=]|[=]%list_elem_of_singleton]%elem_of_cons.
  - intros message' [[=]|[= <-]%list_elem_of_singleton]%elem_of_cons.
    split; [done|]. split; [done|].
    inversion Hsteps as [|? c1 s1 cs1 ? Hstep1 Hsteps1]; subst.
    inversion Hsteps1 as [|? c2 s2 cs2 ? Hstep2 Hsteps2]; subst.
    inversion Hsteps2; subst.
    inversion Hstep2 as [|? ps1 data ps2 ec r ? Hpend Hwrite]; subst.
    injection Hwrite as <- <-. simpl. by rewrite last_snoc.
  - rewrite ?elem_of_cons, ?elem_of_nil; split; intros H;
      repeat (destruct H as [H|H]; try discriminate H); try done; auto 6.
  - intros ? ? [[=]|[=]%list_elem_of_singleton]%elem_of_cons.
  - intros ? [[=]|[=]%list_elem_of_singleton]%elem_of_cons.
  - rewrite ?elem_of_cons, ?elem_of_nil; split; intros H;
      repeat (destruct H as [H|H]; try discriminate H); try done; auto 6.
  - intros ? ? [=]%list_elem_of_singleton.
  - intros ? [=]%list_elem_of_singleton.
Qed.

Lemma shutdown_only_after_successful_write_witness :
  let s := mkState ∅ [(Error, "Internal error in do_read() function: End of file")]
             [Issued (AsyncReadUntil (CRLF +:+ CRLF))] [] in
  session_run example_endpoints true no_files ∅ []
    [ReadCompleted (Failure "End of file") "GET /da"] s
  ∧ pending s = [] ∧ responses s = []
  ∧ logFile s = [] ++ [(Error, "Internal error in do_read() function: End of file")].
Proof.
  intros s.
  assert (session_run example_endpoints true no_files ∅ []
            [ReadCompleted (Failure "End of file") "GET /da"] s) as Hrun.
  { exists (issued (AsyncReadUntil (CRLF +:+ CRLF)) (new_session ∅ [])).
    split; [reflexivity|].
    apply (steps_cons _ _ _ _ _ s); [|apply steps_nil].
    apply (step_read _ _ _ _ [] (CRLF +:+ CRLF) [] _ _ (Some tt)); reflexivity. }
  split; [exact Hrun|].
  apply (proj1 (proj2 (shutdown_only_after_successful_write
                         example_endpoints true no_files ∅ [] _ _ Hrun))
           "End of file" "GET /da").
  apply list_elem_of_singleton. reflexivity.
Defined.

(** ** The accept loop *)

Lemma accept_run_app c a ecs1 ecs2 :
  accept_run c a (ecs1 ++ ecs2)
  = match accept_run c a ecs1 with
    | Some a' => accept_run c a' ecs2
    | None => None
    end.
Proof.
  revert a. induction ecs1 as [|ec ecs1 IH]; intros a; [done|].
  simpl. destruct (accept_completes c a ec); [apply IH | done].
Qed.

(** X17: the accept loop never stops.  After the constructor and after
    any number of accept completions, failed ones included, the
    completions were all delivered and exactly one accept is outstanding;
    each accepted connection started exactly one session, which has
    issued its read and nothing else; each failed accept logged one
    Error line and started nothing. *)
Theorem accept_loop_never_stops c ecs :
  ∃ a,
    accept_run c HttpServer_constructed ecs = Some a
    ∧ accepting a = 1
    ∧ length (sessions a) = length (List.filter accepted ecs)
    ∧ Forall (λ s, socket_ s = [Issued (AsyncReadUntil (CRLF +:+ CRLF))]
                   ∧ pending s = [AsyncReadUntil (CRLF +:+ CRLF)]
                   ∧ cache s = c)
        (sessions a)
    ∧ acceptor_log a = omap accept_error ecs.
Proof.
  induction ecs as [|ec ecs IH] using rev_ind.
  - exists HttpServer_constructed. repeat split. constructor.
  - destruct IH as (a & Hrun & Hone & Hlen & Hall & Hlog).
    rewrite accept_run_app, Hrun. simpl. unfold accept_completes. rewrite Hone.
    eexists. split; [reflexivity|].
    rewrite List.filter_app, List.length_app, omap_app. simpl.
    destruct ec as [|message]; simpl; repeat split.
    + rewrite List.length_app. simpl. lia.
    + apply Forall_app. split; [done|]. by repeat constructor.
    + by rewrite Hlog, app_nil_r.
    + lia.
    + done.
    + by rewrite Hlog.
Qed.

(** ** The log file *)

Lemma app_inj_prefix_length (a a' b b' : string) :
  String.length a = String.length a' → a +:+ b = a' +:+ b' → a = a' ∧ b = b'.
Proof.
  revert a'. induction a as [|c a IH]; intros [|c' a'] Hlen E; try done.
  rewrite !app_cons in E. injection E as -> E. injection Hlen as Hlen.
  destruct (IH a' Hlen E) as [-> ->]. done.
Qed.

(** X18: a line of the log file can be read back.  Two lines written by
    [writeToFile] with time stamps of the same width are the same line
    only if they carry the same time stamp, the same level and the same
    message: the five prefixes differ from one another and each ends
    where the message begins. *)
Theorem log_line_is_unambiguous buffer level message lines buffer' level' message' lines' :
  String.length buffer = String.length buffer' →
  writeToFile buffer level message lines = writeToFile buffer' level' message' lines' →
  lines = lines' ∧ buffer = buffer' ∧ level = level' ∧ message = message'.
Proof.
  unfold writeToFile. intros Hlen E.
  apply app_inj_tail in E as [-> E]. split; [done|].
  apply app_inj_prefix_length in E as [-> E]; [|done]. split; [done|].
  apply (inj (String.app " ")) in E.
  destruct level, level'; cbv [getPrefix String.append] in E; try discriminate E;
    (split; [done|]); congruence.
Qed.

Lemma log_line_is_unambiguous_witness :
  [] = ([] : list string) ∧ "2024-03-09 12:00:00" = "2024-03-09 12:00:00"
  ∧ Error = Error ∧ "Can not open file x" = "Can not open file x".
Proof.
  apply (log_line_is_unambiguous "2024-03-09 12:00:00" Error "Can not open file x" []
           "2024-03-09 12:00:00" Error "Can not open file x" []); reflexivity.
Defined.
